(** * vs-markdown-sidebar: a shallow embedding of the extension

    The development follows the two programs of the repository:

    - the extension host side, [src/extension.ts] and the class
      [MarkdownEditorProvider] of [src/markdownEditorProvider.ts]
      (recent files, open, save, debounced auto-save);
    - the script that runs inside the webview (the [<script>] element of
      [_getHtmlForWebview]): the view state machine, the extraction of
      mermaid blocks and the per-block rendering loop.

    Modelling conventions.
    - A JavaScript string is a [string]; a character stands for one code
      unit below 256.
    - A [vscode.Uri] is represented by its [fsPath]; [Uri.file] is the
      identity on it.
    - Handlers run to completion: an [await] is resolved before the next
      event is taken from the queue.  What an exception leaves behind (the
      assignments made before it) is kept, which is why the monad returns
      the state next to a thrown value too.
    - [vscode.workspace.fs], [marked], [highlight.js], [mermaid] and the DOM
      parser are external: they are parameters ([FileSystem], [Browser]). *)

From Stdlib Require Import Ascii String.
From stdpp Require Import base strings list gmap pretty.

Local Open Scope string_scope.
Local Open Scope list_scope.

(** ** JavaScript values, errors and completions *)

(** An [Error] object: [String(e)] is [Error.prototype.toString]. *)
Record JsError := mkError { name : string; message : string }.

Definition JsError_toString (e : JsError) : string :=
  if decide (name e = "") then message e
  else if decide (message e = "") then name e
  else name e +:+ ": " +:+ message e.

Definition TypeError (msg : string) : JsError := mkError "TypeError" msg.

Inductive Completion (A : Type) : Type :=
| Normal (a : A)
| Throw (e : JsError).
Arguments Normal {A} a.
Arguments Throw {A} e.

(** Statements over a mutable state [S]: the state survives a [Throw]. *)
Definition M (S A : Type) : Type := S → Completion A * S.

Definition ret {S A} (a : A) : M S A := λ s, (Normal a, s).

Definition bind {S A B} (m : M S A) (k : A → M S B) : M S B :=
  λ s, match m s with
       | (Normal a, s') => k a s'
       | (Throw e, s') => (Throw e, s')
       end.

Definition throw {S A} (e : JsError) : M S A := λ s, (Throw e, s).

(** [try { body } catch (e) { handler e }] *)
Definition tryCatch {S A} (body : M S A) (handler : JsError → M S A) : M S A :=
  λ s, match body s with
       | (Normal a, s') => (Normal a, s')
       | (Throw e, s') => handler e s'
       end.

Definition gets {S A} (f : S → A) : M S A := λ s, (Normal (f s), s).
Definition modify {S} (f : S → S) : M S unit := λ s, (Normal tt, f s).

Definition exec {S A} (m : M S A) (s : S) : S := snd (m s).
Definition completion {S A} (m : M S A) (s : S) : Completion A := fst (m s).

Declare Scope js_scope.
Delimit Scope js_scope with js.
Notation "x ←' m ; k" := (bind m (λ x, k))
  (at level 20, m at level 100, k at level 200, right associativity,
   format "'[' x  ←'  m ; '/' k ']'") : js_scope.
Notation "m ;;' k" := (bind m (λ _, k))
  (at level 100, k at level 200, right associativity,
   format "'[' m ;;' '/' k ']'") : js_scope.
Local Open Scope js_scope.

(** ** String helpers of the JavaScript standard library *)

Definition dquote : string := String "034"%char "".
Definition newline : ascii := "010"%char.

(** [\s] of a regular expression, and the characters removed by
    [String.prototype.trim]: TAB, LF, VT, FF, CR, SPACE and NBSP. *)
Definition isWhiteSpace (c : ascii) : bool :=
  bool_decide (nat_of_ascii c ∈ [9; 10; 11; 12; 13; 32; 160]).

Fixpoint trimStart (s : string) : string :=
  match s with
  | String c s' => if isWhiteSpace c then trimStart s' else s
  | EmptyString => EmptyString
  end.

Definition trimEnd (s : string) : string :=
  String.rev (trimStart (String.rev s)).

Definition trim (s : string) : string := trimEnd (trimStart s).

(** [s.split(/[\s\n]/)[0]] *)
Fixpoint split_first (s : string) : string :=
  match s with
  | String c s' => if isWhiteSpace c then EmptyString else String c (split_first s')
  | EmptyString => EmptyString
  end.

(** [s.replace(/c/g, by)] for a one-character pattern *)
Fixpoint replaceChar (c : ascii) (by_ : string) (s : string) : string :=
  match s with
  | String a s' =>
      if decide (a = c) then by_ +:+ replaceChar c by_ s'
      else String a (replaceChar c by_ s')
  | EmptyString => EmptyString
  end.

Fixpoint stripPrefix (p s : string) : option string :=
  match p with
  | EmptyString => Some s
  | String a p' =>
      match s with
      | String b s' => if decide (a = b) then stripPrefix p' s' else None
      | EmptyString => None
      end
  end.

(** Does [c] occur in [s]? *)
Fixpoint occurs (c : ascii) (s : string) : bool :=
  match s with
  | String a s' => bool_decide (a = c) || occurs c s'
  | EmptyString => false
  end.

(** Every character of [s] satisfies [p]. *)
Fixpoint allChars (p : ascii → bool) (s : string) : bool :=
  match s with
  | String a s' => p a && allChars p s'
  | EmptyString => true
  end.

(** [needle] is a substring of [s]. *)
Fixpoint includes (needle s : string) : bool :=
  match stripPrefix needle s with
  | Some _ => true
  | None => match s with
            | String _ s' => includes needle s'
            | EmptyString => false
            end
  end.

(** [part] occurs in [s], as a contiguous run of characters. *)
Definition embeds (s part : string) : Prop :=
  ∃ pre post, s = pre +:+ part +:+ post.

(** ** The persisted key-value store ([context.workspaceState]) *)

Inductive WsValue :=
| WsString (s : string)
| WsStrings (l : list string).

Definition LAST_FILE_KEY : string := "markdownSidebar.lastOpenedFile".
Definition RECENT_FILES_KEY : string := "markdownSidebar.recentFiles".
Definition MAX_RECENT_FILES : nat := 10.

(** [workspaceState.get<string[]>(key, [])] *)
Definition get_strings (ws : gmap string WsValue) (key : string) : list string :=
  match ws !! key with
  | Some (WsStrings l) => l
  | _ => []
  end.

(** [workspaceState.get<string>(key)] *)
Definition get_string (ws : gmap string WsValue) (key : string) : option string :=
  match ws !! key with
  | Some (WsString s) => Some s
  | _ => None
  end.

(** [_addToRecentFiles], on the store *)
Definition _addToRecentFiles (filePath : string) (ws : gmap string WsValue)
  : gmap string WsValue :=
  let recentFiles := get_strings ws RECENT_FILES_KEY in
  (* Remove if already exists (to move to top) *)
  let filtered := filter (λ f, f ≠ filePath) recentFiles in
  (* Add to beginning *)
  let filtered := filePath :: filtered in
  (* Keep only last N files *)
  let trimmed := take MAX_RECENT_FILES filtered in
  <[RECENT_FILES_KEY := WsStrings trimmed]> ws.

(** [_saveLastFile] *)
Definition _saveLastFile (fsPath : string) (ws : gmap string WsValue)
  : gmap string WsValue :=
  _addToRecentFiles fsPath (<[LAST_FILE_KEY := WsString fsPath]> ws).

(** The list read back by [showRecentFiles]. *)
Definition recentFiles (ws : gmap string WsValue) : list string :=
  get_strings ws RECENT_FILES_KEY.

(** [_getFilename]: the last segment of [fsPath.split(/[/\\]/)]. *)
Fixpoint lastSegment (cur s : string) : string :=
  match s with
  | String c s' =>
      if bool_decide (c = "/"%char ∨ c = "\"%char) then lastSegment "" s'
      else lastSegment (cur +:+ String c "") s'
  | EmptyString => cur
  end.

Definition _getFilename (fsPath : string) : string := lastSegment "" fsPath.

(** ** The webview script: extraction of mermaid blocks *)

(** [String.fromCharCode(96, 96, 96)] *)
Definition backticks : string := "```".

(** The pattern is [```mermaid\s*\n([\s\S]*?)```].  Its matcher is written
    in the order a backtracking engine tries the alternatives; each function
    returns the capture group and the text that follows the match. *)

(** [([\s\S]*?)```]: the shortest capture that is followed by a fence. *)
Fixpoint lazyBody (s : string) : option (string * string) :=
  match stripPrefix backticks s with
  | Some after => Some ("", after)
  | None =>
      match s with
      | String c s' =>
          match lazyBody s' with
          | Some (body, after) => Some (String c body, after)
          | None => None
          end
      | EmptyString => None
      end
  end.

(** [\n([\s\S]*?)```] *)
Definition newlineThenBody (s : string) : option (string * string) :=
  match s with
  | String c s' => if decide (c = newline) then lazyBody s' else None
  | EmptyString => None
  end.

(** [\s*\n([\s\S]*?)```]: the longest run of white space first, giving
    characters back while the rest of the pattern fails. *)
Fixpoint greedySpaces (s : string) : option (string * string) :=
  match s with
  | String c s' =>
      if isWhiteSpace c then
        match greedySpaces s' with
        | Some r => Some r
        | None => newlineThenBody s
        end
      else newlineThenBody s
  | EmptyString => newlineThenBody s
  end.

(** A match of [mermaidRegex] that starts at the head of [s]. *)
Definition mermaidRegex_exec (s : string) : option (string * string) :=
  match stripPrefix (backticks +:+ "mermaid") s with
  | Some s' => greedySpaces s'
  | None => None
  end.

Record MermaidBlock := mkBlock {
  id : string;
  code : string;
  diagramType : string
}.

Definition mermaidElementId (n : N) : string := "mermaid-" +:+ pretty n.

Definition placeholderDiv (id : string) : string :=
  "<div class=" +:+ dquote +:+ "mermaid" +:+ dquote +:+ " id=" +:+ dquote
  +:+ id +:+ dquote +:+ "></div>".

(** The replacement callback of [text.replace(mermaidRegex, ...)]: the block
    it pushes and the text it returns; the caller increments [mermaidId]. *)
Definition replaceCallback (code : string) (mermaidId : N) : MermaidBlock * string :=
  let id := mermaidElementId mermaidId in
  let trimmedCode := trim code in
  (* Extract diagram type (first word) *)
  let first := split_first trimmedCode in
  let diagramType := if decide (first = "") then "unknown" else first in
  (mkBlock id trimmedCode diagramType, placeholderDiv id).

(** [text.replace(mermaidRegex, callback)] with the [g] flag: the text is
    scanned from left to right; where the pattern matches, the callback's
    text replaces the match and the scan resumes after it ([skip] counts the
    characters of the current match still to pass over); elsewhere the
    character is copied.  The result is the processed text, the blocks in
    document order and the new value of the counter [mermaidId]. *)
Fixpoint replaceMermaid (text : string) (skip : nat) (mermaidId : N)
  : string * list MermaidBlock * N :=
  match text with
  | EmptyString => ("", [], mermaidId)
  | String c rest =>
      match skip with
      | S k => replaceMermaid rest k mermaidId
      | O =>
          match mermaidRegex_exec text with
          | Some (code, after) =>
              let '(block, div) := replaceCallback code mermaidId in
              let matched := String.length text - String.length after in
              let '(out, blocks, n) :=
                replaceMermaid rest (matched - 1) (mermaidId + 1)%N in
              (div +:+ out, block :: blocks, n)
          | None =>
              let '(out, blocks, n) := replaceMermaid rest 0 mermaidId in
              (String c out, blocks, n)
          end
      end
  end.

(** ** The webview script: rendering *)

(** What the script takes from the page: [marked.parse], the elements that
    carry an id once [preview.innerHTML = html] is assigned and
    [hljs.highlightElement] has run (id to [innerHTML]), and [mermaid.render],
    which resolves to the SVG text or rejects with an [Error]. *)
Class Browser := {
  marked_parse : string → string;
  elementsById : string → gmap string string;
  mermaid_render : string → string → Completion string
}.

(** The inline error shown in place of a diagram that failed to render. *)
Definition errorPresentation (block : MermaidBlock) (e : JsError) : string :=
  "<div style=" +:+ dquote +:+ "border: 1px solid #f44336; border-radius: 4px; padding: 8px; margin: 8px 0; text-align: left;" +:+ dquote +:+ ">" +:+
  "<div style=" +:+ dquote +:+ "color: #f44336; font-weight: bold; margin-bottom: 4px;" +:+ dquote +:+ ">Mermaid Error (" +:+ diagramType block +:+ ")</div>" +:+
  "<div style=" +:+ dquote +:+ "color: #ff9800; font-size: 12px; margin-bottom: 8px;" +:+ dquote +:+ ">" +:+ message e +:+ "</div>" +:+
  "<details style=" +:+ dquote +:+ "font-size: 11px;" +:+ dquote +:+ ">" +:+
  "<summary style=" +:+ dquote +:+ "cursor: pointer; color: var(--vscode-descriptionForeground);" +:+ dquote +:+ ">Show code</summary>" +:+
  "<pre style=" +:+ dquote +:+ "margin-top: 8px; padding: 8px; background: var(--vscode-textCodeBlock-background); overflow-x: auto; white-space: pre-wrap;" +:+ dquote +:+ ">" +:+
  replaceChar ">" "&gt;" (replaceChar "<" "&lt;" (code block)) +:+
  "</pre></details></div>".

(** The state of the script: its three variables and the part of the page
    it reads and writes.  [*_hidden] is membership of the class [hidden];
    [preview_elements] are the elements of the page that carry an id, with
    their [innerHTML]: [getElementById] is a lookup, and assigning the
    [innerHTML] of one of them leaves the others where they are. *)
Record Webview := mkWebview {
  isPreviewMode : bool;
  hasFile : bool;
  mermaidId : N;
  editor_value : string;
  editor_hidden : bool;
  preview_hidden : bool;
  placeholder_hidden : bool;
  preview_innerHTML : string;
  preview_elements : gmap string string;
  filename_textContent : string;
  modeIndicator_textContent : string
}.

(** The page as the HTML declares it, before any message. *)
Definition initialWebview : Webview :=
  {| isPreviewMode := false; hasFile := false; mermaidId := 0;
     editor_value := ""; editor_hidden := true; preview_hidden := true;
     placeholder_hidden := false; preview_innerHTML := "";
     preview_elements := ∅; filename_textContent := "No file open";
     modeIndicator_textContent := "Edit" |}.

Definition set_elements (f : gmap string string → gmap string string) (w : Webview) : Webview :=
  {| isPreviewMode := isPreviewMode w; hasFile := hasFile w; mermaidId := mermaidId w;
     editor_value := editor_value w; editor_hidden := editor_hidden w;
     preview_hidden := preview_hidden w; placeholder_hidden := placeholder_hidden w;
     preview_innerHTML := preview_innerHTML w;
     preview_elements := f (preview_elements w);
     filename_textContent := filename_textContent w;
     modeIndicator_textContent := modeIndicator_textContent w |}.

Definition set_modeIndicator (t : string) (w : Webview) : Webview :=
  {| isPreviewMode := isPreviewMode w; hasFile := hasFile w; mermaidId := mermaidId w;
     editor_value := editor_value w; editor_hidden := editor_hidden w;
     preview_hidden := preview_hidden w; placeholder_hidden := placeholder_hidden w;
     preview_innerHTML := preview_innerHTML w;
     preview_elements := preview_elements w;
     filename_textContent := filename_textContent w;
     modeIndicator_textContent := t |}.

Definition set_visibility (editorHidden previewHidden : bool) (w : Webview) : Webview :=
  {| isPreviewMode := isPreviewMode w; hasFile := hasFile w; mermaidId := mermaidId w;
     editor_value := editor_value w; editor_hidden := editorHidden;
     preview_hidden := previewHidden; placeholder_hidden := placeholder_hidden w;
     preview_innerHTML := preview_innerHTML w;
     preview_elements := preview_elements w;
     filename_textContent := filename_textContent w;
     modeIndicator_textContent := modeIndicator_textContent w |}.

Definition set_isPreviewMode (b : bool) (w : Webview) : Webview :=
  {| isPreviewMode := b; hasFile := hasFile w; mermaidId := mermaidId w;
     editor_value := editor_value w; editor_hidden := editor_hidden w;
     preview_hidden := preview_hidden w; placeholder_hidden := placeholder_hidden w;
     preview_innerHTML := preview_innerHTML w;
     preview_elements := preview_elements w;
     filename_textContent := filename_textContent w;
     modeIndicator_textContent := modeIndicator_textContent w |}.

Definition set_editor_value (v : string) (w : Webview) : Webview :=
  {| isPreviewMode := isPreviewMode w; hasFile := hasFile w; mermaidId := mermaidId w;
     editor_value := v; editor_hidden := editor_hidden w;
     preview_hidden := preview_hidden w; placeholder_hidden := placeholder_hidden w;
     preview_innerHTML := preview_innerHTML w;
     preview_elements := preview_elements w;
     filename_textContent := filename_textContent w;
     modeIndicator_textContent := modeIndicator_textContent w |}.

(** The first statements of [renderPreview], up to [preview.innerHTML = html]
    and the highlighting: the counter moves, the preview is replaced. *)
Definition set_preview `{Browser} (html : string) (n : N) (w : Webview) : Webview :=
  {| isPreviewMode := isPreviewMode w; hasFile := hasFile w; mermaidId := n;
     editor_value := editor_value w; editor_hidden := editor_hidden w;
     preview_hidden := preview_hidden w; placeholder_hidden := placeholder_hidden w;
     preview_innerHTML := html;
     preview_elements := elementsById html;
     filename_textContent := filename_textContent w;
     modeIndicator_textContent := modeIndicator_textContent w |}.

Section WebviewScript.
Context `{Browser}.

(** One turn of the loop [for (const block of mermaidBlocks)]. *)
Definition renderBlock (block : MermaidBlock) : M Webview unit :=
  element ←' gets (λ w, preview_elements w !! id block);
  match element with
  | None => ret tt                                   (* continue *)
  | Some _ =>
      tryCatch
        (svg ←' (λ w, (mermaid_render (id block +:+ "-svg") (code block), w));
         modify (set_elements <[id block := svg]>))
        (λ e, modify (set_elements <[id block := errorPresentation block e]>))
  end.

Fixpoint renderBlocks (blocks : list MermaidBlock) : M Webview unit :=
  match blocks with
  | [] => ret tt
  | block :: rest => renderBlock block ;;' renderBlocks rest
  end.

(** The blocks [renderPreview] extracts from [text] in state [w]. *)
Definition extractedBlocks (text : string) (w : Webview) : list MermaidBlock :=
  (replaceMermaid text 0 (mermaidId w)).1.2.

Definition renderPreview (text : string) : M Webview unit :=
  n0 ←' gets mermaidId;
  let '(processedText, mermaidBlocks, n) := replaceMermaid text 0 n0 in
  (* Parse markdown with marked *)
  let html := marked_parse processedText in
  modify (set_preview html n) ;;'
  (* Render mermaid diagrams *)
  renderBlocks mermaidBlocks.

Definition updateView : M Webview unit :=
  has ←' gets hasFile;
  if negb has then ret tt
  else
    preview ←' gets isPreviewMode;
    if preview then
      modify (set_visibility true false) ;;'
      text ←' gets editor_value;
      renderPreview text ;;'
      modify (set_modeIndicator "Preview")
    else
      modify (set_visibility false true) ;;'
      modify (set_modeIndicator "Edit").

(** Messages from the extension, and what the user does in the page. *)
Inductive WebviewMessage :=
| loadContent (content filename : string)
| togglePreview
| otherMessage (type : string).

Inductive WebviewEvent :=
| Message (m : WebviewMessage)
| Input (value : string).

(** [window.addEventListener('message', ...)].  [updateView()] is called
    without [await]: a rejection of its promise does not reach the
    listener, the state it reached stays. *)
Definition onMessage (m : WebviewMessage) (w : Webview) : Webview :=
  match m with
  | loadContent content filename =>
      {| isPreviewMode := false; hasFile := true; mermaidId := 0;
         editor_value := content; editor_hidden := false;
         preview_hidden := true; placeholder_hidden := true;
         preview_innerHTML := ""; preview_elements := ∅;
         filename_textContent := filename;
         modeIndicator_textContent := "Edit" |}
  | togglePreview =>
      if hasFile w then
        exec updateView (set_isPreviewMode (negb (isPreviewMode w)) w)
      else w
  | otherMessage _ => w
  end.

(** The [input] listener of the editor only posts [contentChanged]; the
    [textarea] itself holds the new value. *)
Definition webviewStep (w : Webview) (ev : WebviewEvent) : Webview :=
  match ev with
  | Message m => onMessage m w
  | Input value => set_editor_value value w
  end.

Definition webviewRun (evs : list WebviewEvent) (w : Webview) : Webview :=
  foldl webviewStep w evs.

(** *** Notions used to state the properties of the script *)

(** What the loop leaves in the element of [block]. *)
Definition blockContent (block : MermaidBlock) : string :=
  match mermaid_render (id block +:+ "-svg") (code block) with
  | Normal svg => svg
  | Throw e => errorPresentation block e
  end.

(** The loop body on the elements: a block whose element is missing is
    passed over. *)
Definition patchElement (els : gmap string string) (block : MermaidBlock)
  : gmap string string :=
  match els !! id block with
  | Some _ => <[id block := blockContent block]> els
  | None => els
  end.

(** Preview mode only with a file; without a file the page shows the
    placeholder, in [Edit]. *)
Definition view_invariant (w : Webview) : Prop :=
  (isPreviewMode w = true → hasFile w = true)
  ∧ (hasFile w = false →
     isPreviewMode w = false
     ∧ modeIndicator_textContent w = "Edit"
     ∧ placeholder_hidden w = false
     ∧ editor_hidden w = true
     ∧ preview_hidden w = true).

End WebviewScript.

(** ** The extension host side *)

(** [vscode.workspace.fs] over the type [FS] of file system states, on files
    that hold text: [readFile] resolves to
    the decoded content or rejects; [writeFile] resolves or rejects and
    leaves a new file system. *)
Class FileSystem := {
  FS : Type;
  fs_readFile : string → FS → Completion string;
  fs_writeFile : string → string → FS → Completion unit * FS
}.

Inductive WebviewView := webviewView.

Inductive Notification :=
| showInformationMessage (text : string)
| showWarningMessage (text : string)
| showErrorMessage (text : string).

(** [data] of [onDidReceiveMessage] *)
Inductive HostMessage :=
| contentChanged (content : string)
| ready
| unknownMessage (type : string).

(** Arguments a command handler can be given. *)
Inductive JsValue :=
| JsUndefined
| JsString (s : string)
| JsUri (fsPath : string).

(** What the user answers to the dialogs a call opens:
    [showOpenDialog] ([undefined] or the selected uris) and [showQuickPick]
    ([undefined] or the position of the picked item). *)
Record UserAnswers := mkAnswers {
  openDialogAnswer : option (list string);
  quickPickAnswer : option nat
}.

Section Host.
Context `{FileSystem}.

(** The fields of the provider, then what surrounds it: the workspace
    state, the disk with the log of the calls of [writeFile] (oldest
    first), the clock in milliseconds with the pending timers (handle and
    due time; the only callback ever armed is [() => this._autoSave()]),
    the notifications shown, the messages posted to the webview and the
    errors nobody handled (rejections of dropped promises, exceptions that
    leave a listener or a command handler). *)
Record World := mkWorld {
  _view : option WebviewView;
  _currentFileUri : option string;
  _currentContent : string;
  _autoSaveTimeout : option nat;
  workspaceState : gmap string WsValue;
  disk : FS;
  writes : list (string * string);
  clock : nat;
  timers : list (nat * nat);
  nextTimer : nat;
  notifications : list Notification;
  posted : list WebviewMessage;
  unhandledRejections : list JsError
}.

(** A provider just constructed by [activate]. *)
Definition newWorld (ws : gmap string WsValue) (d : FS) : World :=
  mkWorld None None "" None ws d [] 0 [] 0 [] [] [].

Definition upd_view (f : option WebviewView → option WebviewView) (w : World) : World :=
  mkWorld (f (_view w)) (_currentFileUri w) (_currentContent w)
    (_autoSaveTimeout w) (workspaceState w) (disk w) (writes w) (clock w)
    (timers w) (nextTimer w) (notifications w) (posted w)
    (unhandledRejections w).

Definition upd_currentFileUri (f : option string → option string) (w : World) : World :=
  mkWorld (_view w) (f (_currentFileUri w)) (_currentContent w)
    (_autoSaveTimeout w) (workspaceState w) (disk w) (writes w) (clock w)
    (timers w) (nextTimer w) (notifications w) (posted w)
    (unhandledRejections w).

Definition upd_currentContent (f : string → string) (w : World) : World :=
  mkWorld (_view w) (_currentFileUri w) (f (_currentContent w))
    (_autoSaveTimeout w) (workspaceState w) (disk w) (writes w) (clock w)
    (timers w) (nextTimer w) (notifications w) (posted w)
    (unhandledRejections w).

Definition upd_autoSaveTimeout (f : option nat → option nat) (w : World) : World :=
  mkWorld (_view w) (_currentFileUri w) (_currentContent w) (f
    (_autoSaveTimeout w)) (workspaceState w) (disk w) (writes w) (clock w)
    (timers w) (nextTimer w) (notifications w) (posted w)
    (unhandledRejections w).

Definition upd_workspaceState (f : gmap string WsValue → gmap string WsValue) (w : World) : World :=
  mkWorld (_view w) (_currentFileUri w) (_currentContent w)
    (_autoSaveTimeout w) (f (workspaceState w)) (disk w) (writes w) (clock
    w) (timers w) (nextTimer w) (notifications w) (posted w)
    (unhandledRejections w).

Definition upd_disk (f : FS → FS) (w : World) : World :=
  mkWorld (_view w) (_currentFileUri w) (_currentContent w)
    (_autoSaveTimeout w) (workspaceState w) (f (disk w)) (writes w) (clock
    w) (timers w) (nextTimer w) (notifications w) (posted w)
    (unhandledRejections w).

Definition upd_writes (f : list (string * string) → list (string * string)) (w : World) : World :=
  mkWorld (_view w) (_currentFileUri w) (_currentContent w)
    (_autoSaveTimeout w) (workspaceState w) (disk w) (f (writes w)) (clock
    w) (timers w) (nextTimer w) (notifications w) (posted w)
    (unhandledRejections w).

Definition upd_clock (f : nat → nat) (w : World) : World :=
  mkWorld (_view w) (_currentFileUri w) (_currentContent w)
    (_autoSaveTimeout w) (workspaceState w) (disk w) (writes w) (f (clock
    w)) (timers w) (nextTimer w) (notifications w) (posted w)
    (unhandledRejections w).

Definition upd_timers (f : list (nat * nat) → list (nat * nat)) (w : World) : World :=
  mkWorld (_view w) (_currentFileUri w) (_currentContent w)
    (_autoSaveTimeout w) (workspaceState w) (disk w) (writes w) (clock w)
    (f (timers w)) (nextTimer w) (notifications w) (posted w)
    (unhandledRejections w).

Definition upd_nextTimer (f : nat → nat) (w : World) : World :=
  mkWorld (_view w) (_currentFileUri w) (_currentContent w)
    (_autoSaveTimeout w) (workspaceState w) (disk w) (writes w) (clock w)
    (timers w) (f (nextTimer w)) (notifications w) (posted w)
    (unhandledRejections w).

Definition upd_notifications (f : list Notification → list Notification) (w : World) : World :=
  mkWorld (_view w) (_currentFileUri w) (_currentContent w)
    (_autoSaveTimeout w) (workspaceState w) (disk w) (writes w) (clock w)
    (timers w) (nextTimer w) (f (notifications w)) (posted w)
    (unhandledRejections w).

Definition upd_posted (f : list WebviewMessage → list WebviewMessage) (w : World) : World :=
  mkWorld (_view w) (_currentFileUri w) (_currentContent w)
    (_autoSaveTimeout w) (workspaceState w) (disk w) (writes w) (clock w)
    (timers w) (nextTimer w) (notifications w) (f (posted w))
    (unhandledRejections w).

Definition upd_unhandledRejections (f : list JsError → list JsError) (w : World) : World :=
  mkWorld (_view w) (_currentFileUri w) (_currentContent w)
    (_autoSaveTimeout w) (workspaceState w) (disk w) (writes w) (clock w)
    (timers w) (nextTimer w) (notifications w) (posted w) (f
    (unhandledRejections w)).

(** *** Primitives of the environment *)

Definition readFile (uri : string) : M World string :=
  λ w, (fs_readFile uri (disk w), w).

Definition writeFile (uri content : string) : M World unit :=
  λ w, let '(r, d) := fs_writeFile uri content (disk w) in
       (r, upd_writes (λ l, l ++ [(uri, content)]) (upd_disk (λ _, d) w)).

Definition notify (n : Notification) : M World unit :=
  modify (upd_notifications (λ l, l ++ [n])).

(** [if (this._view) { this._view.webview.postMessage(m) }] *)
Definition postMessage (m : WebviewMessage) : M World unit :=
  v ←' gets _view;
  match v with
  | Some _ => modify (upd_posted (λ l, l ++ [m]))
  | None => ret tt
  end.

Definition setTimeout (delay : nat) : M World nat :=
  λ w, (Normal (nextTimer w),
        upd_nextTimer S
          (upd_timers (λ l, l ++ [(nextTimer w, clock w + delay)]) w)).

Definition clearTimeout (handle : nat) : M World unit :=
  modify (upd_timers (filter (λ t, t.1 ≠ handle))).

(** A call of an [async] function whose promise is dropped, and a
    listener run by the host: an exception does not reach the caller. *)
Definition detached (m : M World unit) : M World unit :=
  tryCatch m (λ e, modify (upd_unhandledRejections (λ l, l ++ [e]))).

(** *** The methods of [MarkdownEditorProvider] *)

Definition resolveWebviewView : M World unit :=
  modify (upd_view (λ _, Some webviewView)).

Definition _loadLastFile : M World unit :=
  lastFilePath ←' gets (λ w, get_string (workspaceState w) LAST_FILE_KEY);
  match lastFilePath with
  | Some lastFilePath =>
      if decide (lastFilePath = "") then ret tt
      else
        tryCatch
          (content ←' readFile lastFilePath;
           modify (upd_currentFileUri (λ _, Some lastFilePath)) ;;'
           modify (upd_currentContent (λ _, content)) ;;'
           postMessage (loadContent content (_getFilename lastFilePath)))
          (λ _,
           (* File no longer exists, clear the stored path *)
           modify (upd_workspaceState (delete LAST_FILE_KEY)))
  | None => ret tt
  end.

Definition _restoreContent : M World unit :=
  uri ←' gets _currentFileUri;
  content ←' gets _currentContent;
  match uri with
  | Some uri =>
      if decide (content = "") then detached _loadLastFile
      else postMessage (loadContent content (_getFilename uri))
  | None => detached _loadLastFile
  end.

Definition _openFileByPath (filePath : string) : M World unit :=
  tryCatch
    (content ←' readFile filePath;
     modify (upd_currentFileUri (λ _, Some filePath)) ;;'
     modify (upd_currentContent (λ _, content)) ;;'
     modify (upd_workspaceState (_saveLastFile filePath)) ;;'
     postMessage (loadContent content (_getFilename filePath)))
    (λ _, notify (showErrorMessage ("Failed to open file: " +:+ filePath))).

Definition showRecentFiles (user : UserAnswers) : M World unit :=
  recentFiles ←' gets (λ w, recentFiles (workspaceState w));
  if decide (length recentFiles = 0) then
    notify (showInformationMessage "No recent files")
  else
    let items := recentFiles in
    match quickPickAnswer user ≫= (items !!.) with
    | Some filePath => _openFileByPath filePath
    | None => ret tt
    end.

Definition _autoSave : M World unit :=
  uri ←' gets _currentFileUri;
  match uri with
  | None => ret tt
  | Some uri =>
      tryCatch
        (content ←' gets _currentContent;
         writeFile uri content)
        (λ _, (* Silent fail for auto-save *) ret tt)
  end.

Definition _scheduleAutoSave : M World unit :=
  pending ←' gets _autoSaveTimeout;
  match pending with
  | Some handle => clearTimeout handle
  | None => ret tt
  end ;;'
  handle ←' setTimeout 1000;                          (* 1 second delay *)
  modify (upd_autoSaveTimeout (λ _, Some handle)).

Definition openFile (user : UserAnswers) : M World unit :=
  match openDialogAnswer user with
  | Some (fileUri0 :: _) =>
      modify (upd_currentFileUri (λ _, Some fileUri0)) ;;'
      content ←' readFile fileUri0;
      modify (upd_currentContent (λ _, content)) ;;'
      (* Save the file path for persistence *)
      modify (upd_workspaceState (_saveLastFile fileUri0)) ;;'
      postMessage (loadContent content (_getFilename fileUri0))
  | _ => ret tt
  end.

Definition saveFile : M World unit :=
  uri ←' gets _currentFileUri;
  match uri with
  | None => notify (showWarningMessage "No file is currently open")
  | Some uri =>
      tryCatch
        (content ←' gets _currentContent;
         writeFile uri content ;;'
         notify (showInformationMessage ("Saved " +:+ _getFilename uri)))
        (λ error,
         notify (showErrorMessage
                   ("Failed to save file: " +:+ JsError_toString error)))
  end.

Definition provider_togglePreview : M World unit :=
  postMessage togglePreview.

(** *** The listeners registered by [resolveWebviewView] *)

Definition onDidReceiveMessage (data : HostMessage) : M World unit :=
  match data with
  | contentChanged content =>
      modify (upd_currentContent (λ _, content)) ;;'
      _scheduleAutoSave
  | ready =>
      (* Webview is ready, restore content if we have any *)
      _restoreContent
  | unknownMessage _ => ret tt
  end.

Definition onDidChangeVisibility (visible : bool) : M World unit :=
  uri ←' gets _currentFileUri;
  if visible && bool_decide (is_Some uri) then _restoreContent else ret tt.

(** *** Timers *)

Fixpoint runCallbacks (due : list (nat * nat)) : M World unit :=
  match due with
  | [] => ret tt
  | _ :: rest => detached _autoSave ;;' runCallbacks rest
  end.

(** [ms] milliseconds pass: the timers that are due leave the pending
    list and their callbacks run, oldest first. *)
Definition elapse (ms : nat) : M World unit :=
  modify (upd_clock (λ t, t + ms)) ;;'
  now ←' gets clock;
  pending ←' gets timers;
  modify (upd_timers (filter (λ t, ¬ (t.2 ≤ now)%nat))) ;;'
  runCallbacks (filter (λ t, (t.2 ≤ now)%nat) pending).

(** *** [extension.ts]: method calls on the provider and the commands *)

(** A function member of the class, by the shape of its parameters. *)
Inductive Method :=
| Method0 (body : UserAnswers → M World unit)
| MethodString (body : string → M World unit)
| MethodUri (body : string → M World unit).

(** The function members of [MarkdownEditorProvider.prototype].  The
    [async] ones return a promise at once: their body runs [detached].
    The other properties of a provider ([_view], [_currentFileUri],
    [_currentContent], [_context], [_autoSaveTimeout], [_extensionUri])
    hold data. *)
Definition MarkdownEditorProvider_prototype : gmap string Method :=
  list_to_map [
    ("resolveWebviewView", Method0 (λ _, resolveWebviewView));
    ("_restoreContent", Method0 (λ _, _restoreContent));
    ("_loadLastFile", Method0 (λ _, detached _loadLastFile));
    ("_saveLastFile",
      MethodUri (λ uri, modify (upd_workspaceState (_saveLastFile uri))));
    ("_addToRecentFiles",
      MethodString (λ p, modify (upd_workspaceState (_addToRecentFiles p))));
    ("showRecentFiles", Method0 (λ user, detached (showRecentFiles user)));
    ("_openFileByPath", MethodString (λ p, detached (_openFileByPath p)));
    ("_scheduleAutoSave", Method0 (λ _, _scheduleAutoSave));
    ("_autoSave", Method0 (λ _, detached _autoSave));
    ("openFile", Method0 (λ user, detached (openFile user)));
    ("saveFile", Method0 (λ _, detached saveFile));
    ("togglePreview", Method0 (λ _, provider_togglePreview));
    ("_getFilename", MethodUri (λ _, ret tt));
    ("_getHtmlForWebview", Method0 (λ _, ret tt))
  ].

(** The statement [provider.name(args);].  A property that is not a
    function cannot be called; an argument of another type than the
    parameter fails at its first use. *)
Definition callMethod (name : string) (args : list JsValue) (user : UserAnswers)
  : M World unit :=
  match MarkdownEditorProvider_prototype !! name with
  | Some (Method0 body) => body user
  | Some (MethodString body) =>
      match args with
      | JsString s :: _ => body s
      | _ => throw (TypeError "argument is not a string")
      end
  | Some (MethodUri body) =>
      match args with
      | JsUri p :: _ => body p
      | _ => throw (TypeError "Cannot read properties of undefined (reading 'fsPath')")
      end
  | None => throw (TypeError ("provider." +:+ name +:+ " is not a function"))
  end.

(** The commands registered by [activate]. *)
Definition activate : gmap string (list JsValue → UserAnswers → M World unit) :=
  list_to_map [
    ("markdownSidebar.open", λ _, callMethod "openFile" []);
    ("markdownSidebar.recentFiles", λ _, callMethod "showRecentFiles" []);
    ("markdownSidebar.togglePreview", λ _, callMethod "togglePreview" []);
    ("markdownSidebar.openFromExplorer",
      λ args, callMethod "openFileFromUri" [default JsUndefined (args !! 0)])
  ].

Definition executeCommand (command : string) (args : list JsValue)
    (user : UserAnswers) : M World unit :=
  match activate !! command with
  | Some handler => handler args user
  | None => throw (mkError "Error" ("command '" +:+ command +:+ "' not found"))
  end.

(** *** The event loop of the extension host *)

Inductive HostEvent :=
| ResolveWebviewView
| ReceiveMessage (data : HostMessage)
| ChangeVisibility (visible : bool)
| ExecuteCommand (command : string) (args : list JsValue) (user : UserAnswers)
| SaveFile
| Elapse (ms : nat)
| DiskChanged (d : FS).

(** The listeners exist once the view is resolved. *)
Definition handle (ev : HostEvent) : M World unit :=
  match ev with
  | ResolveWebviewView => resolveWebviewView
  | ReceiveMessage data =>
      v ←' gets _view;
      if bool_decide (is_Some v) then onDidReceiveMessage data else ret tt
  | ChangeVisibility visible =>
      v ←' gets _view;
      if bool_decide (is_Some v) then onDidChangeVisibility visible else ret tt
  | ExecuteCommand command args user => executeCommand command args user
  | SaveFile => saveFile
  | Elapse ms => elapse ms
  | DiskChanged d => modify (upd_disk (λ _, d))
  end.

Definition hostStep (w : World) (ev : HostEvent) : World :=
  exec (detached (handle ev)) w.

Definition hostRun (evs : list HostEvent) (w : World) : World :=
  foldl hostStep w evs.

(** The worlds met while [evs] are processed, the first one included. *)
Fixpoint hostTrace (evs : list HostEvent) (w : World) : list World :=
  match evs with
  | [] => [w]
  | ev :: rest => w :: hostTrace rest (hostStep w ev)
  end.

Inductive reachable : World → Prop :=
| reachable_new ws d : reachable (newWorld ws d)
| reachable_step w ev : reachable w → reachable (hostStep w ev).

(** At most one timer is pending, and it is the one whose handle the
    provider holds. *)
Definition timers_invariant (w : World) : Prop :=
  timers w = []
  ∨ ∃ handle due, timers w = [(handle, due)] ∧ _autoSaveTimeout w = Some handle.

(** [m] never changes the observation [f] of the world. *)
Definition keeps {X A} (f : World → X) (m : M World A) : Prop :=
  ∀ w, f (m w).2 = f w.

(** The pending timers and the handle the provider holds. *)
Definition timerState (w : World) : list (nat * nat) * option nat :=
  (timers w, _autoSaveTimeout w).

(** [m] takes every world to one related to it by [R]. *)
Definition respects {A} (R : relation World) (m : M World A) : Prop :=
  ∀ w, R w (m w).2.

(** Once a file is loaded, one stays loaded. *)
Definition loaded_stays (w w' : World) : Prop :=
  is_Some (_currentFileUri w) → is_Some (_currentFileUri w').

(** Without a resolved view nothing is posted, and no view appears. *)
Definition unseen (w w' : World) : Prop :=
  _view w = None → _view w' = None ∧ posted w' = posted w.

(** From [w] to [w'] the current file and the buffer are the same, and
    every call of [writeFile] in between wrote that buffer to that file. *)
Definition writes_buffer (w w' : World) : Prop :=
  _currentFileUri w' = _currentFileUri w
  ∧ _currentContent w' = _currentContent w
  ∧ ∃ l, writes w' = writes w ++ l
         ∧ Forall (λ e, _currentFileUri w = Some e.1 ∧ e.2 = _currentContent w) l.

(** The edits of a burst: each text with the pause that follows it. *)
Definition burst (edits : list (string * nat)) : list HostEvent :=
  edits ≫= (λ e, [ReceiveMessage (contentChanged e.1); Elapse e.2]).

End Host.

(** ** Instances for the examples: a disk in memory and a page with stub
    libraries *)

(** Files by path; the paths in [broken] reject every read and write. *)
Record MemDisk := mkDisk {
  files : gmap string string;
  broken : gset string
}.

#[global] Instance MemDisk_fs : FileSystem := {|
  FS := MemDisk;
  fs_readFile p d :=
    if decide (p ∈ broken d) then Throw (mkError "Error" "EIO")
    else match files d !! p with
         | Some c => Normal c
         | None => Throw (mkError "Error" "ENOENT")
         end;
  fs_writeFile p c d :=
    if decide (p ∈ broken d) then (Throw (mkError "Error" "EIO"), d)
    else (Normal tt, mkDisk (<[p := c]> (files d)) (broken d))
|}.

(** A page whose markdown renderer passes the text through, where the
    placeholders of the first identifiers become elements, and whose diagram
    renderer accepts the bodies that start with [graph]. *)
#[global] Instance stubBrowser : Browser := {|
  marked_parse text := text;
  elementsById html :=
    list_to_map
      (omap (λ n, let i := mermaidElementId (N.of_nat n) in
                  if includes (placeholderDiv i) html then Some (i, "") else None)
            (seq 0 16));
  mermaid_render _ code :=
    match stripPrefix "graph" code with
    | Some _ => Normal ("<svg>" +:+ code +:+ "</svg>")
    | None => Throw (mkError "Error" ("Parse error: " +:+ code))
    end
|}.

(** *** Sample inputs *)

Definition lf : string := String newline "".

(** Two diagram blocks: the body of the first is not a diagram. *)
Definition sampleDocument : string :=
  "# Title" +:+ lf +:+
  "```mermaid" +:+ lf +:+ "not a real <diagram>" +:+ lf +:+ "```" +:+ lf +:+
  "```mermaid" +:+ lf +:+ "graph TD" +:+ lf +:+ "A-->B" +:+ lf +:+ "```" +:+ lf.

Definition sampleLoaded : Webview :=
  onMessage (loadContent sampleDocument "sample.md") initialWebview.

Definition sampleBlock0 : MermaidBlock :=
  mkBlock "mermaid-0" "not a real <diagram>" "not".

Definition sampleDisk : MemDisk :=
  mkDisk {[ "/notes/a.md" := "alpha"; "/notes/b.md" := "beta" ]} ∅.

(** The user picks [path] in the open dialog. *)
Definition picks (path : string) : UserAnswers := mkAnswers (Some [path]) None.

(** The view is resolved, no file is loaded. *)
Definition emptyWorld : World :=
  hostStep (newWorld ∅ sampleDisk) ResolveWebviewView.

(** [/notes/a.md] is loaded through the open command. *)
Definition loadedWorld : World :=
  hostStep emptyWorld
    (ExecuteCommand "markdownSidebar.open" [] (picks "/notes/a.md")).

(** A provider just constructed, its view not resolved yet. *)
Definition freshWorld : World := newWorld ∅ sampleDisk.

(** The stored last file is gone from the disk. *)
Definition staleWorld : World :=
  hostStep
    (newWorld (<[LAST_FILE_KEY := WsString "/notes/gone.md"]> ∅) sampleDisk)
    ResolveWebviewView.

(** [/notes/a.md] is loaded and has just been edited. *)
Definition editedWorld : World :=
  hostStep loadedWorld (ReceiveMessage (contentChanged "alpha1")).

(** * Properties *)

(** ** Recent files *)

Lemma recentFiles_add (p : string) (ws : gmap string WsValue) :
  recentFiles (_addToRecentFiles p ws)
  = take MAX_RECENT_FILES (p :: filter (λ f, f ≠ p) (recentFiles ws)).
Proof.
  unfold recentFiles, _addToRecentFiles, get_strings at 1.
  by rewrite lookup_insert_eq.
Qed.

Lemma filter_absent (p : string) (l : list string) :
  p ∉ l → filter (λ f, f ≠ p) l = l.
Proof.
  intros Hp. induction l as [|x l IH]; [done|].
  apply not_elem_of_cons in Hp as [Hne Hp].
  rewrite filter_cons_True by congruence. by rewrite IH.
Qed.

Lemma filter_removes (p : string) (l : list string) :
  p ∉ filter (λ f, f ≠ p) l.
Proof. rewrite list_elem_of_filter. tauto. Qed.

Lemma filter_eq_absent (p : string) (l : list string) :
  p ∉ l → filter (λ f, f = p) l = [].
Proof.
  intros Hp. induction l as [|x l IH]; [done|].
  apply not_elem_of_cons in Hp as [Hne Hp].
  rewrite filter_cons_False by congruence. auto.
Qed.

Lemma not_elem_of_take (p : string) (n : nat) (l : list string) :
  p ∉ l → p ∉ take n l.
Proof. intros Hp Hin. apply Hp. eapply subseteq_take, Hin. Qed.

(** C6. For every path [p] and every stored list, one call of
    [_addToRecentFiles p] puts [p] in front of the other entries, kept in
    their order and cut at [MAX_RECENT_FILES]; a second call in a row changes
    nothing, and the list then holds [p] exactly once, at index 0. *)
Theorem C6_touch_twice (p : string) (ws : gmap string WsValue) :
  let once := recentFiles (_addToRecentFiles p ws) in
  let twice := recentFiles (_addToRecentFiles p (_addToRecentFiles p ws)) in
  once = p :: take (MAX_RECENT_FILES - 1) (filter (λ f, f ≠ p) (recentFiles ws))
  ∧ twice = once
  ∧ twice !! 0 = Some p
  ∧ length (filter (λ f, f = p) twice) = 1.
Proof.
  set (others := take (MAX_RECENT_FILES - 1) (filter (λ f, f ≠ p) (recentFiles ws))).
  assert (Hothers : p ∉ others) by apply not_elem_of_take, filter_removes.
  assert (Honce : recentFiles (_addToRecentFiles p ws) = p :: others)
    by (rewrite recentFiles_add; reflexivity).
  assert (Htwice : recentFiles (_addToRecentFiles p (_addToRecentFiles p ws))
                   = p :: others).
  { rewrite recentFiles_add, Honce.
    rewrite filter_cons_False by (intros Hne; by apply Hne).
    rewrite (filter_absent p others) by done.
    change (take MAX_RECENT_FILES (p :: others))
      with (p :: take (MAX_RECENT_FILES - 1) others).
    unfold others. by rewrite take_take, Nat.min_id. }
  cbv zeta. rewrite Htwice, Honce. repeat split.
  rewrite filter_cons_True by done.
  by rewrite (filter_eq_absent p others).
Qed.

Lemma recentFiles_foldl (ps : list string) (ws : gmap string WsValue) :
  recentFiles ws = [] → NoDup ps →
  recentFiles (foldl (λ ws p, _addToRecentFiles p ws) ws ps)
  = take MAX_RECENT_FILES (reverse ps).
Proof.
  intros Hempty. induction ps as [|p ps IH] using rev_ind; intros Hnd.
  { cbn [foldl]. by rewrite Hempty. }
  apply NoDup_app in Hnd as (Hnd & Hfresh & _).
  rewrite foldl_app. cbn [foldl]. rewrite recentFiles_add, IH by done.
  assert (Hp : p ∉ take MAX_RECENT_FILES (reverse ps)).
  { apply not_elem_of_take. rewrite elem_of_reverse. intros Hin.
    apply (Hfresh p Hin). by left. }
  rewrite (filter_absent p _ Hp), reverse_app, reverse_singleton.
  change (take MAX_RECENT_FILES (p :: ?l))
    with (p :: take (MAX_RECENT_FILES - 1) l).
  by rewrite take_take.
Qed.

(** C7. Starting from an empty list, [_addToRecentFiles] called on
    [MAX_RECENT_FILES + 1] distinct paths, [oldest] first, leaves the
    [MAX_RECENT_FILES = 10] paths touched after [oldest], the most recent
    first; [oldest] is gone. *)
Theorem C7_eviction (oldest : string) (later : list string) (ws : gmap string WsValue) :
  recentFiles ws = [] →
  NoDup (oldest :: later) →
  length later = MAX_RECENT_FILES →
  let final := recentFiles (foldl (λ ws p, _addToRecentFiles p ws) ws (oldest :: later)) in
  final = reverse later
  ∧ length final = 10
  ∧ oldest ∉ final.
Proof.
  intros Hempty Hnd Hlen final.
  assert (Hfinal : final = reverse later).
  { unfold final. rewrite recentFiles_foldl by done.
    rewrite reverse_cons, take_app_le by (rewrite length_reverse; lia).
    apply take_ge. rewrite length_reverse. lia. }
  rewrite Hfinal. split; [done|]. split.
  - by rewrite length_reverse.
  - rewrite elem_of_reverse. by apply NoDup_cons in Hnd as [? _].
Qed.

Lemma C7_eviction_witness :
  recentFiles
    (foldl (λ ws p, _addToRecentFiles p ws) ∅
       ["f0"; "f1"; "f2"; "f3"; "f4"; "f5"; "f6"; "f7"; "f8"; "f9"; "f10"])
  = ["f10"; "f9"; "f8"; "f7"; "f6"; "f5"; "f4"; "f3"; "f2"; "f1"].
Proof.
  apply (C7_eviction "f0"
           ["f1"; "f2"; "f3"; "f4"; "f5"; "f6"; "f7"; "f8"; "f9"; "f10"] ∅).
  - reflexivity.
  - apply (bool_decide_unpack _). vm_compute. exact I.
  - reflexivity.
Defined.

(** ** Strings *)

Lemma append_cons (x : ascii) (a b : string) :
  String x a +:+ b = String x (a +:+ b).
Proof. reflexivity. Qed.

Lemma append_nil_l (b : string) : "" +:+ b = b.
Proof. reflexivity. Qed.

Lemma append_assoc (a b c : string) : (a +:+ b) +:+ c = a +:+ b +:+ c.
Proof.
  induction a as [|x a IH]; [done|]. by rewrite !append_cons, IH.
Qed.

Lemma append_nil_r (a : string) : a +:+ "" = a.
Proof.
  induction a as [|x a IH]; [done|]. by rewrite append_cons, IH.
Qed.

Lemma embeds_refl (s : string) : embeds s s.
Proof. exists "", "". by rewrite append_nil_l, append_nil_r. Qed.

Lemma embeds_app_l (a b part : string) : embeds a part → embeds (a +:+ b) part.
Proof.
  intros (pre & post & ->). exists pre, (post +:+ b).
  by rewrite !append_assoc.
Qed.

Lemma embeds_app_r (a b part : string) : embeds b part → embeds (a +:+ b) part.
Proof.
  intros (pre & post & ->). exists (a +:+ pre), post.
  by rewrite !append_assoc.
Qed.

Lemma embeds_head (a part : string) : embeds (part +:+ a) part.
Proof. apply embeds_app_l, embeds_refl. Qed.

Lemma occurs_app (c : ascii) (a b : string) :
  occurs c (a +:+ b) = occurs c a || occurs c b.
Proof.
  induction a as [|x a IH]; [done|].
  rewrite append_cons. cbn [occurs]. by rewrite IH, orb_assoc.
Qed.

Lemma occurs_replaced (c : ascii) (by_ s : string) :
  occurs c by_ = false → occurs c (replaceChar c by_ s) = false.
Proof.
  intros Hby. induction s as [|a s IH]; cbn; [done|].
  destruct (decide (a = c)) as [->|Hne].
  - by rewrite occurs_app, Hby, IH.
  - cbn. rewrite IH. by rewrite bool_decide_eq_false_2.
Qed.

Lemma occurs_replaceChar_other (c d : ascii) (by_ s : string) :
  c ≠ d → occurs c by_ = false →
  occurs c (replaceChar d by_ s) = occurs c s.
Proof.
  intros Hcd Hby. induction s as [|a s IH]; cbn; [done|].
  destruct (decide (a = d)) as [->|Hne].
  - rewrite occurs_app, Hby, IH. by rewrite bool_decide_eq_false_2.
  - cbn. by rewrite IH.
Qed.

(** The source shown in an error block holds no angle bracket. *)
Lemma escaped_no_angle (s : string) :
  let shown := replaceChar ">" "&gt;" (replaceChar "<" "&lt;" s) in
  occurs "<" shown = false ∧ occurs ">" shown = false.
Proof.
  split.
  - rewrite occurs_replaceChar_other by done. by apply occurs_replaced.
  - by apply occurs_replaced.
Qed.

(** ** The identifiers given by the extraction *)

Lemma mermaidElementId_inj : Inj (=) (=) mermaidElementId.
Proof.
  intros m n Heq. unfold mermaidElementId in Heq.
  by apply (inj (String.app "mermaid-")), (inj pretty) in Heq.
Qed.

Lemma replaceMermaid_ids (text : string) :
  ∀ (skip : nat) (n : N),
    let '(_, blocks, n') := replaceMermaid text skip n in
    map id blocks
    = map (λ i, mermaidElementId (n + N.of_nat i)) (seq 0 (length blocks))
    ∧ n' = (n + N.of_nat (length blocks))%N.
Proof.
  induction text as [|c rest IH]; intros skip n.
  { cbn. split; [done | lia]. }
  cbn [replaceMermaid]. destruct skip as [|k]; [|apply IH].
  destruct (mermaidRegex_exec (String c rest)) as [[body after]|].
  - cbn [replaceCallback].
    specialize (IH (String.length (String c rest) - String.length after - 1)
                   (n + 1)%N).
    destruct (replaceMermaid rest _ (n + 1)) as [[out blocks] n'].
    destruct IH as [Hids ->]. split.
    + cbn [map length seq id]. rewrite N.add_0_r. f_equal.
      rewrite Hids, <- seq_shift, map_map.
      apply map_ext. intros i. f_equal. lia.
    + cbn [length]. lia.
  - specialize (IH 0 n).
    destruct (replaceMermaid rest 0 n) as [[out blocks] n']. exact IH.
Qed.

Lemma extractedBlocks_ids (text : string) (w : Webview) :
  map id (extractedBlocks text w)
  = map (λ i, mermaidElementId (mermaidId w + N.of_nat i))
        (seq 0 (length (extractedBlocks text w))).
Proof.
  unfold extractedBlocks.
  pose proof (replaceMermaid_ids text 0 (mermaidId w)) as Hids.
  destruct (replaceMermaid text 0 (mermaidId w)) as [[out blocks] n'].
  apply Hids.
Qed.

Lemma extractedBlocks_NoDup (text : string) (w : Webview) :
  NoDup (map id (extractedBlocks text w)).
Proof.
  rewrite extractedBlocks_ids. apply NoDup_fmap_2_strong; [|apply NoDup_seq].
  intros i j _ _ Heq. apply mermaidElementId_inj in Heq. lia.
Qed.

(** ** The rendering loop *)

Section WebviewFacts.
Context `{Browser}.

Lemma renderBlock_run (b : MermaidBlock) (w : Webview) :
  renderBlock b w = (Normal tt, set_elements (λ els, patchElement els b) w).
Proof.
  destruct w as [pm hf n ev eh ph plh html els fn mi].
  unfold renderBlock, patchElement, blockContent, bind, gets, tryCatch, modify.
  unfold set_elements, ret. cbn.
  destruct (els !! id b) as [old|] eqn:Hel; cbn; rewrite ?Hel; [|done].
  by destruct (mermaid_render (id b +:+ "-svg") (code b)).
Qed.

Lemma renderBlocks_run (bs : list MermaidBlock) (w : Webview) :
  renderBlocks bs w
  = (Normal tt, set_elements (λ els, foldl patchElement els bs) w).
Proof.
  revert w. induction bs as [|b bs IH]; intros w.
  - by destruct w.
  - cbn [renderBlocks foldl]. unfold bind. by rewrite renderBlock_run, IH.
Qed.

Lemma patchElement_ne (els : gmap string string) (b : MermaidBlock) (k : string) :
  id b ≠ k → patchElement els b !! k = els !! k.
Proof.
  intros Hne. unfold patchElement.
  destruct (els !! id b); [by rewrite lookup_insert_ne | done].
Qed.

Lemma patchElement_eq (els : gmap string string) (b : MermaidBlock) :
  is_Some (els !! id b) → patchElement els b !! id b = Some (blockContent b).
Proof.
  intros [old Hold]. unfold patchElement. rewrite Hold.
  apply lookup_insert_eq.
Qed.

Lemma foldl_patch_other (bs : list MermaidBlock) (els : gmap string string)
    (k : string) :
  k ∉ map id bs → foldl patchElement els bs !! k = els !! k.
Proof.
  revert els. induction bs as [|b bs IH]; intros els Hk; [done|].
  cbn [map] in Hk. apply not_elem_of_cons in Hk as [Hne Hk].
  cbn [foldl]. rewrite IH by done. by apply patchElement_ne.
Qed.

(** Each block ends with its own outcome, whatever the others did. *)
Lemma foldl_patch_own (bs : list MermaidBlock) (els : gmap string string)
    (b : MermaidBlock) :
  NoDup (map id bs) → b ∈ bs → is_Some (els !! id b) →
  foldl patchElement els bs !! id b = Some (blockContent b).
Proof.
  revert els. induction bs as [|b' bs IH]; intros els Hnd Hin Hsome.
  { by apply elem_of_nil in Hin. }
  cbn [map] in Hnd. apply NoDup_cons in Hnd as [Hfresh Hnd].
  cbn [foldl]. apply elem_of_cons in Hin as [->|Hin].
  - rewrite foldl_patch_other by done. by apply patchElement_eq.
  - apply IH; [done..|].
    destruct (decide (id b' = id b)) as [Heq|Hne].
    + rewrite <- Heq, patchElement_eq; [done|]. by rewrite Heq.
    + by rewrite patchElement_ne.
Qed.

Lemma renderPreview_run (text : string) (w : Webview) :
  renderPreview text w
  = let '(processedText, mermaidBlocks, n) := replaceMermaid text 0 (mermaidId w) in
    (Normal tt,
     set_elements (λ els, foldl patchElement els mermaidBlocks)
       (set_preview (marked_parse processedText) n w)).
Proof.
  unfold renderPreview, bind, gets. cbn.
  destruct (replaceMermaid text 0 (mermaidId w)) as [[out blocks] n].
  unfold modify. by rewrite renderBlocks_run.
Qed.

Lemma updateView_run (w : Webview) :
  completion updateView w = Normal tt
  ∧ hasFile (exec updateView w) = hasFile w
  ∧ isPreviewMode (exec updateView w) = isPreviewMode w.
Proof.
  unfold completion, exec, updateView, bind, gets. cbn -[renderPreview].
  destruct (hasFile w) eqn:Hhas; cbn -[renderPreview]; [|done].
  destruct (isPreviewMode w) eqn:Hpm; cbn -[renderPreview]; [|done].
  rewrite renderPreview_run. cbn.
  by destruct (replaceMermaid _ _ _) as [[out blocks] n].
Qed.

(** C5. In a preview pass over any text, no exception leaves
    [renderPreview], and a block whose placeholder is in the page ends with
    its own outcome whatever happens to the other blocks: the SVG when
    [mermaid.render] resolves, the error presentation when it rejects.
    That presentation embeds the label with the declared kind, the message
    of the error and the source of the block with its angle brackets
    replaced, so that none is left in it. *)
Theorem C5_failure_isolation (text : string) (w : Webview) (b : MermaidBlock) :
  b ∈ extractedBlocks text w →
  is_Some (elementsById (marked_parse (replaceMermaid text 0 (mermaidId w)).1.1)
             !! id b) →
  completion (renderPreview text) w = Normal tt
  ∧ preview_elements (exec (renderPreview text) w) !! id b
    = Some (match mermaid_render (id b +:+ "-svg") (code b) with
            | Normal svg => svg
            | Throw e => errorPresentation b e
            end)
  ∧ ∀ e : JsError,
      let shown := replaceChar ">" "&gt;" (replaceChar "<" "&lt;" (code b)) in
      embeds (errorPresentation b e) ("Mermaid Error (" +:+ diagramType b +:+ ")")
      ∧ embeds (errorPresentation b e) (message e)
      ∧ embeds (errorPresentation b e) shown
      ∧ occurs "<" shown = false
      ∧ occurs ">" shown = false.
Proof.
  intros Hin Hsome.
  pose proof (extractedBlocks_NoDup text w) as Hnd.
  unfold completion, exec, extractedBlocks in *. rewrite renderPreview_run.
  destruct (replaceMermaid text 0 (mermaidId w)) as [[out blocks] n].
  cbn in *. split; [done|]. split.
  { by apply foldl_patch_own. }
  intros e. repeat split; try apply escaped_no_angle.
  - unfold errorPresentation. do 9 apply embeds_app_r.
    change (">Mermaid Error (" +:+ ?s) with (">" +:+ "Mermaid Error (" +:+ s).
    apply embeds_app_r.
    change (")</div>" +:+ ?s) with (")" +:+ "</div>" +:+ s).
    rewrite <- (append_assoc (diagramType b) ")").
    rewrite <- (append_assoc "Mermaid Error (").
    apply embeds_head.
  - unfold errorPresentation. do 17 apply embeds_app_r. apply embeds_head.
  - unfold errorPresentation. do 34 apply embeds_app_r. apply embeds_head.
Qed.

(** ** The identifier counter across passes *)

(** C2, as the script has it. [renderPreview] does not reset [mermaidId]:
    a pass numbers its blocks from the value the counter has when it
    starts and leaves the counter after the last one, so the next pass on
    the same document goes on from there; the counter goes back to 0 when
    a [loadContent] message is handled. *)
Theorem C2_counter_reset_on_load (text : string) (w : Webview) :
  let blocks := extractedBlocks text w in
  map id blocks
  = map (λ i, mermaidElementId (mermaidId w + N.of_nat i)) (seq 0 (length blocks))
  ∧ mermaidId (exec (renderPreview text) w)
    = (mermaidId w + N.of_nat (length blocks))%N
  ∧ ∀ content filename : string,
      mermaidId (onMessage (loadContent content filename) w) = 0%N.
Proof.
  cbv zeta. split; [apply extractedBlocks_ids|]. split; [|done].
  unfold exec, extractedBlocks. rewrite renderPreview_run.
  pose proof (replaceMermaid_ids text 0 (mermaidId w)) as Hids.
  destruct (replaceMermaid text 0 (mermaidId w)) as [[out blocks] n].
  cbn. apply Hids.
Qed.

(** ** The view state machine *)

Lemma webviewStep_invariant (w : Webview) (ev : WebviewEvent) :
  view_invariant w → view_invariant (webviewStep w ev).
Proof.
  intros Hw. destruct ev as [[content filename| |type]|value].
  - split; cbn; [done | discriminate].
  - cbn [webviewStep onMessage]. destruct (hasFile w) eqn:Hhas; [|exact Hw].
    destruct (updateView_run (set_isPreviewMode (negb (isPreviewMode w)) w))
      as (_ & Hfile & _).
    cbn in Hfile. rewrite Hhas in Hfile.
    split; [done | congruence].
  - exact Hw.
  - exact Hw.
Qed.

(** C9. After any sequence of messages and edits from the initial page,
    [isPreviewMode] holds only with [hasFile]; as long as no file is
    loaded the page is in Edit mode and shows the placeholder, with the
    editor and the preview hidden. *)
Theorem C9_preview_needs_file (evs : list WebviewEvent) :
  view_invariant (webviewRun evs initialWebview).
Proof.
  unfold webviewRun.
  assert (Hinit : view_invariant initialWebview) by (split; done).
  revert Hinit. generalize initialWebview.
  induction evs as [|ev evs IH]; intros w Hw; [done|].
  cbn [foldl]. by apply IH, webviewStep_invariant.
Qed.

End WebviewFacts.

(** ** The extension host: what a handler leaves alone *)

Section HostFacts.
Context `{FileSystem}.

Lemma keeps_ret {X A} (f : World → X) (a : A) : keeps f (ret a).
Proof. by intros w. Qed.

Lemma keeps_throw {X A} (f : World → X) (e : JsError) : keeps f (throw (A:=A) e).
Proof. by intros w. Qed.

Lemma keeps_gets {X A} (f : World → X) (g : World → A) : keeps f (gets g).
Proof. by intros w. Qed.

Lemma keeps_modify {X} (f : World → X) (g : World → World) :
  (∀ w, f (g w) = f w) → keeps f (modify g).
Proof. intros Hg w. apply Hg. Qed.

Lemma keeps_bind {X A B} (f : World → X) (m : M World A) (k : A → M World B) :
  keeps f m → (∀ a, keeps f (k a)) → keeps f (bind m k).
Proof.
  intros Hm Hk w. unfold bind. specialize (Hm w).
  destruct (m w) as [[a|e] w']; cbn in *; [|done].
  by rewrite Hk.
Qed.

Lemma keeps_tryCatch {X A} (f : World → X) (m : M World A) (h : JsError → M World A) :
  keeps f m → (∀ e, keeps f (h e)) → keeps f (tryCatch m h).
Proof.
  intros Hm Hh w. unfold tryCatch. specialize (Hm w).
  destruct (m w) as [[a|e] w']; cbn in *; [done|].
  by rewrite Hh.
Qed.

Lemma keeps_readFile {X} (f : World → X) (uri : string) : keeps f (readFile uri).
Proof. by intros w. Qed.

Lemma keeps_writeFile {X} (f : World → X) (uri content : string) :
  (∀ g w, f (upd_writes g w) = f w) → (∀ g w, f (upd_disk g w) = f w) →
  keeps f (writeFile uri content).
Proof.
  intros Hw Hd w. unfold writeFile.
  destruct (fs_writeFile uri content (disk w)) as [r d]. cbn.
  by rewrite Hw, Hd.
Qed.

(** Field by field: the updates are unfolded and the projections reduced. *)
Ltac fields :=
  unfold upd_view, upd_currentFileUri, upd_currentContent,
    upd_autoSaveTimeout, upd_workspaceState, upd_disk, upd_writes,
    upd_clock, upd_timers, upd_nextTimer, upd_notifications, upd_posted,
    upd_unhandledRejections;
  cbn.

Ltac keeps_step :=
  first
    [ apply keeps_ret | apply keeps_throw | apply keeps_gets
    | apply keeps_readFile
    | apply keeps_writeFile; reflexivity
    | apply keeps_modify; reflexivity
    | apply keeps_bind; [|intros ?]
    | apply keeps_tryCatch; [|intros ?]
    | match goal with
      | |- keeps _ (match ?x with _ => _ end) => destruct x
      | |- keeps _ (if ?x then _ else _) => destruct x
      end ].

Ltac keeps_all tac := repeat first [ keeps_step | tac ].

Lemma keeps_notify {X} (f : World → X) (n : Notification) :
  (∀ g w, f (upd_notifications g w) = f w) → keeps f (notify n).
Proof. intros Hn. by apply keeps_modify. Qed.

Lemma postMessage_timers (m : WebviewMessage) : keeps timerState (postMessage m).
Proof. unfold postMessage. keeps_all fail. Qed.

Lemma detached_timers (m : M World unit) :
  keeps timerState m → keeps timerState (detached m).
Proof. intros Hm. unfold detached. keeps_all ltac:(exact Hm). Qed.

Lemma _loadLastFile_timers : keeps timerState _loadLastFile.
Proof. unfold _loadLastFile. keeps_all ltac:(apply postMessage_timers). Qed.

Lemma _restoreContent_timers : keeps timerState _restoreContent.
Proof.
  unfold _restoreContent.
  keeps_all ltac:(first [ apply postMessage_timers
                        | apply detached_timers, _loadLastFile_timers ]).
Qed.

Lemma _openFileByPath_timers (p : string) : keeps timerState (_openFileByPath p).
Proof.
  unfold _openFileByPath, notify. keeps_all ltac:(apply postMessage_timers).
Qed.

Lemma showRecentFiles_timers (user : UserAnswers) :
  keeps timerState (showRecentFiles user).
Proof.
  unfold showRecentFiles, notify. keeps_all ltac:(apply _openFileByPath_timers).
Qed.

Lemma openFile_timers (user : UserAnswers) : keeps timerState (openFile user).
Proof. unfold openFile. keeps_all ltac:(apply postMessage_timers). Qed.

Lemma saveFile_timers : keeps timerState saveFile.
Proof. unfold saveFile, notify. keeps_all fail. Qed.

Lemma _autoSave_timers : keeps timerState _autoSave.
Proof. unfold _autoSave. keeps_all fail. Qed.

Lemma callMethod_openFile (args : list JsValue) (user : UserAnswers) :
  callMethod "openFile" args user = detached (openFile user).
Proof. reflexivity. Qed.

Lemma callMethod_showRecentFiles (args : list JsValue) (user : UserAnswers) :
  callMethod "showRecentFiles" args user = detached (showRecentFiles user).
Proof. reflexivity. Qed.

Lemma callMethod_togglePreview (args : list JsValue) (user : UserAnswers) :
  callMethod "togglePreview" args user = provider_togglePreview.
Proof. reflexivity. Qed.

Lemma callMethod_openFileFromUri (args : list JsValue) (user : UserAnswers) :
  callMethod "openFileFromUri" args user
  = throw (TypeError "provider.openFileFromUri is not a function").
Proof. reflexivity. Qed.

Lemma executeCommand_timers (command : string) (args : list JsValue)
    (user : UserAnswers) :
  keeps timerState (executeCommand command args user).
Proof.
  unfold executeCommand.
  destruct (activate !! command) as [handler|] eqn:Hcmd; [|apply keeps_throw].
  apply elem_of_list_to_map_2 in Hcmd.
  repeat (apply elem_of_cons in Hcmd as [[= -> ->]|Hcmd]); cbv beta.
  - rewrite callMethod_openFile. apply detached_timers, openFile_timers.
  - rewrite callMethod_showRecentFiles.
    apply detached_timers, showRecentFiles_timers.
  - rewrite callMethod_togglePreview. apply postMessage_timers.
  - rewrite callMethod_openFileFromUri. apply keeps_throw.
  - by apply elem_of_nil in Hcmd.
Qed.

Lemma runCallbacks_timers (due : list (nat * nat)) :
  keeps timerState (runCallbacks due).
Proof.
  induction due as [|t due IH]; cbn [runCallbacks]; [apply keeps_ret|].
  apply keeps_bind; [|intros _; exact IH].
  apply detached_timers, _autoSave_timers.
Qed.

(** ** The timers *)

Lemma timers_invariant_keeps {A} (m : M World A) (w : World) :
  keeps timerState m → timers_invariant w → timers_invariant (exec m w).
Proof.
  intros Hm Hw. specialize (Hm w). unfold timerState in Hm.
  injection Hm as Ht Hh. unfold timers_invariant, exec. by rewrite Ht, Hh.
Qed.

Lemma filter_handle (handle due : nat) :
  filter (λ t : nat * nat, t.1 ≠ handle) [(handle, due)] = [].
Proof. by rewrite filter_cons_False by (intros Hne; by apply Hne). Qed.

(** Arming the timer: whatever was pending is cancelled. *)
Lemma _scheduleAutoSave_run (w : World) :
  timers_invariant w →
  _scheduleAutoSave w
  = (Normal tt,
     upd_autoSaveTimeout (λ _, Some (nextTimer w))
       (upd_nextTimer S
          (upd_timers (λ _, [(nextTimer w, clock w + 1000)]) w))).
Proof.
  intros [Hnone|(handle & due & Hone & Hheld)];
    unfold _scheduleAutoSave, bind, gets, clearTimeout, setTimeout, modify, ret.
  - destruct (_autoSaveTimeout w) as [h|]; fields; by rewrite Hnone.
  - rewrite Hheld. fields. by rewrite Hone, filter_handle.
Qed.

Lemma timers_invariant_elapse (ms : nat) (w : World) :
  timers_invariant w → timers_invariant (exec (elapse ms) w).
Proof.
  intros Hw. unfold elapse, exec, bind, modify, gets. cbn.
  set (w1 := upd_timers _ (upd_clock _ w)).
  assert (Hw1 : timers_invariant w1).
  { unfold timers_invariant, w1. fields.
    destruct Hw as [Hnone|(handle & due & Hone & Hheld)].
    - left. by rewrite Hnone.
    - rewrite Hone.
      destruct (decide ((handle, due).2 ≤ clock w + ms)%nat) as [Hdue|Hnot].
      + left. by rewrite filter_cons_False by (intros Hn; by apply Hn).
      + right. exists handle, due. by rewrite filter_cons_True. }
  pose proof (timers_invariant_keeps
                (runCallbacks (filter (λ t, (t.2 ≤ clock w + ms)%nat) (timers w)))
                w1 (runCallbacks_timers _) Hw1) as Hdone.
  unfold exec in Hdone.
  by destruct (runCallbacks _ w1) as [[[]|e] w2].
Qed.

Lemma detached_exec (m : M World unit) (w : World) :
  timers_invariant (exec m w) → timers_invariant (exec (detached m) w).
Proof.
  unfold exec, detached, tryCatch, modify.
  by destruct (m w) as [[[]|e] w'].
Qed.

Lemma hostStep_invariant (w : World) (ev : HostEvent) :
  timers_invariant w → timers_invariant (hostStep w ev).
Proof.
  intros Hw. unfold hostStep. apply detached_exec.
  destruct ev as [|data|visible|command args user| |ms|d]; cbn [handle].
  - by apply timers_invariant_keeps; [apply keeps_modify|].
  - unfold exec, bind, gets. cbn -[onDidReceiveMessage].
    destruct (bool_decide (is_Some (_view w))); [|done].
    destruct data as [content| |type]; cbn [onDidReceiveMessage].
    + unfold bind, modify. cbn -[_scheduleAutoSave].
      rewrite _scheduleAutoSave_run by exact Hw.
      right. by eexists _, _.
    + by apply timers_invariant_keeps; [apply _restoreContent_timers|].
    + done.
  - apply timers_invariant_keeps; [|done].
    unfold onDidChangeVisibility.
    keeps_all ltac:(apply _restoreContent_timers).
  - by apply timers_invariant_keeps; [apply executeCommand_timers|].
  - by apply timers_invariant_keeps; [apply saveFile_timers|].
  - by apply timers_invariant_elapse.
  - by apply timers_invariant_keeps; [apply keeps_modify|].
Qed.

Lemma reachable_invariant (w : World) : reachable w → timers_invariant w.
Proof.
  induction 1 as [ws d|w ev _ IH]; [by left | by apply hostStep_invariant].
Qed.

Lemma hostTrace_invariant (evs : list HostEvent) (w : World) :
  timers_invariant w → Forall timers_invariant (hostTrace evs w).
Proof.
  revert w. induction evs as [|ev evs IH]; intros w Hw; cbn [hostTrace].
  - by constructor.
  - constructor; [done|]. by apply IH, hostStep_invariant.
Qed.

(** ** Debounced auto-save *)

Lemma contentChanged_step (w : World) (content : string) :
  _view w = Some webviewView → timers_invariant w →
  handle (ReceiveMessage (contentChanged content)) w
  = (Normal tt,
     upd_autoSaveTimeout (λ _, Some (nextTimer w))
       (upd_nextTimer S
          (upd_timers (λ _, [(nextTimer w, clock w + 1000)])
             (upd_currentContent (λ _, content) w)))).
Proof.
  intros Hview Hw. cbn [handle]. unfold bind, gets. rewrite Hview.
  cbn -[_scheduleAutoSave]. unfold modify.
  by rewrite _scheduleAutoSave_run by exact Hw.
Qed.

Lemma filter_due (handle due now : nat) :
  filter (λ t : nat * nat, (t.2 ≤ now)%nat) [(handle, due)]
  = (if decide (due ≤ now)%nat then [(handle, due)] else [])
  ∧ filter (λ t : nat * nat, ¬ (t.2 ≤ now)%nat) [(handle, due)]
    = (if decide (due ≤ now)%nat then [] else [(handle, due)]).
Proof.
  rewrite !filter_cons, !filter_nil. cbn.
  split; repeat case_decide; done.
Qed.

Lemma elapse_early (w : World) (handle due ms : nat) :
  timers w = [(handle, due)] → (clock w + ms < due)%nat →
  elapse ms w
  = (Normal tt, upd_timers (λ _, [(handle, due)]) (upd_clock (λ t, t + ms) w)).
Proof.
  intros Hone Hearly. unfold elapse, bind, modify, gets. fields.
  rewrite Hone. destruct (filter_due handle due (clock w + ms)) as [-> ->].
  by rewrite !decide_False by lia.
Qed.

Lemma elapse_fire (w : World) (handle due ms : nat) :
  timers w = [(handle, due)] → (due ≤ clock w + ms)%nat →
  elapse ms w
  = bind (detached _autoSave) (λ _, ret tt)
      (upd_timers (λ _, []) (upd_clock (λ t, t + ms) w)).
Proof.
  intros Hone Hdue. unfold elapse, bind at 1 2 3 4, modify, gets.
  fields. rewrite Hone.
  destruct (filter_due handle due (clock w + ms)) as [-> ->].
  by rewrite !decide_True by lia.
Qed.

(** What the timer callback does: one write of the buffer when a file is
    loaded, nothing otherwise; in both cases nothing is shown or raised. *)
Lemma _autoSave_run (w : World) :
  ∃ d, detached _autoSave w
       = (Normal tt,
          match _currentFileUri w with
          | Some uri =>
              upd_writes (λ l, l ++ [(uri, _currentContent w)])
                (upd_disk (λ _, d) w)
          | None => w
          end).
Proof.
  unfold detached, _autoSave, tryCatch, bind, gets, writeFile, ret, modify.
  destruct (_currentFileUri w) as [uri|]; [|by exists (disk w)].
  destruct (fs_writeFile uri (_currentContent w) (disk w)) as [[[]|e] d];
    by exists d.
Qed.

Lemma hostStep_contentChanged (w : World) (content : string) :
  _view w = Some webviewView → timers_invariant w →
  hostStep w (ReceiveMessage (contentChanged content))
  = upd_autoSaveTimeout (λ _, Some (nextTimer w))
      (upd_nextTimer S
         (upd_timers (λ _, [(nextTimer w, clock w + 1000)])
            (upd_currentContent (λ _, content) w))).
Proof.
  intros Hview Hw. unfold hostStep, exec, detached, tryCatch.
  by rewrite contentChanged_step.
Qed.

Lemma hostStep_elapse_early (w : World) (h due ms : nat) :
  timers w = [(h, due)] → (clock w + ms < due)%nat →
  hostStep w (Elapse ms)
  = upd_timers (λ _, [(h, due)]) (upd_clock (λ t, t + ms) w).
Proof.
  intros Hone Hearly. unfold hostStep, exec, detached, tryCatch.
  cbn [handle]. by rewrite (elapse_early w h due ms).
Qed.

Lemma hostStep_elapse_fire (w : World) (h due ms : nat) :
  timers w = [(h, due)] → (due ≤ clock w + ms)%nat →
  ∃ d, hostStep w (Elapse ms)
       = let fired := upd_timers (λ _, []) (upd_clock (λ t, t + ms) w) in
         match _currentFileUri w with
         | Some uri =>
             upd_writes (λ l, l ++ [(uri, _currentContent w)])
               (upd_disk (λ _, d) fired)
         | None => fired
         end.
Proof.
  intros Hone Hdue. unfold hostStep, exec, detached at 1, tryCatch at 1.
  cbn [handle]. rewrite (elapse_fire w h due ms) by done.
  unfold bind.
  destruct (_autoSave_run (upd_timers (λ _, []) (upd_clock (λ t, t + ms) w)))
    as [d ->].
  exists d. unfold ret. cbn [snd fst]. reflexivity.
Qed.

Lemma burst_quiet (edits : list (string * nat)) (w : World) :
  Forall (λ e, (e.2 < 1000)%nat) edits →
  _view w = Some webviewView → timers_invariant w →
  let w' := hostRun (burst edits) w in
  _view w' = Some webviewView
  ∧ timers_invariant w'
  ∧ _currentFileUri w' = _currentFileUri w
  ∧ writes w' = writes w.
Proof.
  intros Hgaps. revert w.
  induction Hgaps as [|[text gap] edits Hgap _ IH]; intros w Hview Hw; [done|].
  cbn in Hgap. cbn zeta.
  change (hostRun (burst ((text, gap) :: edits)) w)
    with (hostRun (burst edits)
            (hostStep (hostStep w (ReceiveMessage (contentChanged text)))
               (Elapse gap))).
  pose proof (hostStep_contentChanged w text Hview Hw) as Hw1.
  set (w1 := hostStep w (ReceiveMessage (contentChanged text))) in *.
  assert (Hw2 : hostStep w1 (Elapse gap)
                = upd_timers (λ _, [(nextTimer w, clock w + 1000)])
                    (upd_clock (λ t, t + gap) w1)).
  { apply hostStep_elapse_early; rewrite Hw1; [done|]. fields. lia. }
  assert (Hinv2 : timers_invariant (hostStep w1 (Elapse gap)))
    by (by do 2 apply hostStep_invariant).
  set (w2 := hostStep w1 (Elapse gap)) in *. clearbody w2 w1.
  destruct (IH w2) as (Hview' & Hinv' & Huri' & Hwrites'); [|done|].
  - by rewrite Hw2, Hw1.
  - repeat split; [done..| |].
    + rewrite Huri', Hw2, Hw1. done.
    + rewrite Hwrites', Hw2, Hw1. done.
Qed.

(** C4, as the provider has it.  After [k >= 1] [contentChanged] messages,
    each less than 1000 ms after the one before, and 1000 ms of silence,
    the log of writes has grown by exactly one entry, the last text
    written to the current file, when a file is loaded, and by none when
    no file is loaded; in every world on the way at most one timer is
    pending. *)
Theorem C4_debounced_write (w : World) (edits : list (string * nat))
    (last : string) (wait : nat) :
  reachable w →
  _view w = Some webviewView →
  Forall (λ e, (e.2 < 1000)%nat) edits →
  (1000 ≤ wait)%nat →
  let events :=
    burst edits ++ [ReceiveMessage (contentChanged last); Elapse wait] in
  writes (hostRun events w)
  = writes w ++ match _currentFileUri w with
                | Some uri => [(uri, last)]
                | None => []
                end
  ∧ Forall (λ w', (length (timers w') ≤ 1)%nat) (hostTrace events w).
Proof.
  intros Hreach Hview Hgaps Hwait events.
  apply reachable_invariant in Hreach. split.
  - unfold events, hostRun. rewrite foldl_app.
    destruct (burst_quiet edits w Hgaps Hview Hreach)
      as (Hview' & Hinv' & Huri' & Hwrites').
    fold (hostRun (burst edits) w). set (w' := hostRun (burst edits) w) in *.
    clearbody w'. cbn [foldl]. rewrite <- Huri', <- Hwrites'.
    pose proof (hostStep_contentChanged w' last Hview' Hinv') as Hw1.
    set (w1 := hostStep w' (ReceiveMessage (contentChanged last))) in *.
    clearbody w1.
    destruct (hostStep_elapse_fire w1 (nextTimer w') (clock w' + 1000) wait)
      as [d ->].
    + by rewrite Hw1.
    + rewrite Hw1. fields. lia.
    + rewrite Hw1. cbv zeta. cbn.
      destruct (_currentFileUri w') as [uri|]; cbn; by rewrite ?app_nil_r.
  - eapply Forall_impl; [by apply hostTrace_invariant|].
    intros w' [->|(handle & due & -> & _)]; cbn; lia.
Qed.

(** C1, as the provider has it.  A [contentChanged] message that arrives
    while no file is loaded does not fail, but it is not a no-op: the
    buffer takes the text and an auto-save timer is armed.  When that
    timer expires the callback returns at once: nothing is written,
    nothing is shown, nothing is raised, and still no file is loaded. *)
Theorem C1_update_while_empty (w : World) (content : string) (ms : nat) :
  reachable w →
  _view w = Some webviewView →
  _currentFileUri w = None →
  (1000 ≤ ms)%nat →
  let w1 := hostStep w (ReceiveMessage (contentChanged content)) in
  let w2 := hostStep w1 (Elapse ms) in
  completion (handle (ReceiveMessage (contentChanged content))) w = Normal tt
  ∧ _currentFileUri w1 = None
  ∧ _currentContent w1 = content
  ∧ timers w1 = [(nextTimer w, clock w + 1000)]
  ∧ timers w2 = []
  ∧ writes w2 = writes w
  ∧ notifications w2 = notifications w
  ∧ unhandledRejections w2 = unhandledRejections w
  ∧ _currentFileUri w2 = None.
Proof.
  intros Hreach Hview Hempty Hms w1 w2.
  apply reachable_invariant in Hreach.
  pose proof (hostStep_contentChanged w content Hview Hreach) as Hw1.
  fold w1 in Hw1. unfold w2. clearbody w1.
  split; [unfold completion; by rewrite contentChanged_step|].
  destruct (hostStep_elapse_fire w1 (nextTimer w) (clock w + 1000) ms)
    as [d ->].
  - by rewrite Hw1.
  - rewrite Hw1. cbn. lia.
  - rewrite Hw1. cbn. rewrite Hempty. done.
Qed.

(** ** Saving *)

(** C8. The auto-save callback completes normally whatever the write
    does, shows nothing and changes no field of the provider; [saveFile]
    completes normally too and always adds one notification: the warning
    when no file is open, [Saved ...] when the write resolves, [Failed to
    save file: ...] with the error when it rejects. *)
Theorem C8_save_failure_visibility (w : World) :
  (completion _autoSave w = Normal tt
   ∧ notifications (exec _autoSave w) = notifications w
   ∧ unhandledRejections (exec (detached _autoSave) w) = unhandledRejections w
   ∧ _currentFileUri (exec _autoSave w) = _currentFileUri w
   ∧ _currentContent (exec _autoSave w) = _currentContent w)
  ∧ completion saveFile w = Normal tt
  ∧ notifications (exec saveFile w)
    = notifications w ++
      [match _currentFileUri w with
       | None => showWarningMessage "No file is currently open"
       | Some uri =>
           match (fs_writeFile uri (_currentContent w) (disk w)).1 with
           | Normal _ => showInformationMessage ("Saved " +:+ _getFilename uri)
           | Throw error =>
               showErrorMessage
                 ("Failed to save file: " +:+ JsError_toString error)
           end
       end].
Proof.
  unfold completion, exec, detached, _autoSave, saveFile, tryCatch, bind,
    gets, writeFile, notify, modify, ret.
  destruct (_currentFileUri w) as [uri|] eqn:Huri; [|by cbn].
  by destruct (fs_writeFile uri (_currentContent w) (disk w)) as [[[]|e] d];
    cbn.
Qed.

(** ** Opening *)

(** [openFile] has already replaced the uri when the read rejects, and
    nothing catches the rejection. *)
Lemma openFile_read_failure (w : World) (user : UserAnswers)
    (uri : string) (others : list string) (e : JsError) :
  openDialogAnswer user = Some (uri :: others) →
  fs_readFile uri (disk w) = Throw e →
  openFile user w = (Throw e, upd_currentFileUri (λ _, Some uri) w).
Proof.
  intros Hpick Hread. unfold openFile. rewrite Hpick.
  unfold bind, modify, readFile. cbn. by rewrite Hread.
Qed.

(** [_openFileByPath] reads first and reports the failure. *)
Lemma _openFileByPath_read_failure (w : World) (filePath : string) (e : JsError) :
  fs_readFile filePath (disk w) = Throw e →
  _openFileByPath filePath w
  = (Normal tt,
     upd_notifications
       (λ l, l ++ [showErrorMessage ("Failed to open file: " +:+ filePath)]) w).
Proof.
  intros Hread. unfold _openFileByPath, tryCatch, bind, readFile, notify, modify.
  by rewrite Hread.
Qed.

(** ** Commands *)

(** C10. [MarkdownEditorProvider] has no member [openFileFromUri], and
    the command [markdownSidebar.openFromExplorer], whatever uri it is
    given, throws the [TypeError] of a call of [undefined] and leaves the
    world as it was: no file is loaded. *)
Theorem C10_openFromExplorer_fails (w : World) (args : list JsValue)
    (user : UserAnswers) :
  MarkdownEditorProvider_prototype !! "openFileFromUri" = None
  ∧ executeCommand "markdownSidebar.openFromExplorer" args user w
    = (Throw (TypeError "provider.openFileFromUri is not a function"), w).
Proof. split; reflexivity. Qed.

(** ** Relations every handler respects *)

Lemma respects_ret {A} (R : relation World) `{!Reflexive R} (a : A) :
  respects R (ret a).
Proof. intros w. cbn. reflexivity. Qed.

Lemma respects_throw {A} (R : relation World) `{!Reflexive R} (e : JsError) :
  respects R (throw (A:=A) e).
Proof. intros w. cbn. reflexivity. Qed.

Lemma respects_gets {A} (R : relation World) `{!Reflexive R} (g : World → A) :
  respects R (gets g).
Proof. intros w. cbn. reflexivity. Qed.

Lemma respects_readFile (R : relation World) `{!Reflexive R} (uri : string) :
  respects R (readFile uri).
Proof. intros w. cbn. reflexivity. Qed.

Lemma respects_modify (R : relation World) (g : World → World) :
  (∀ w, R w (g w)) → respects R (modify g).
Proof. intros Hg w. apply Hg. Qed.

Lemma respects_bind {A B} (R : relation World) `{!Transitive R}
    (m : M World A) (k : A → M World B) :
  respects R m → (∀ a, respects R (k a)) → respects R (bind m k).
Proof.
  intros Hm Hk w. unfold bind. specialize (Hm w).
  destruct (m w) as [[a|e] w']; cbn in *; [|done].
  etrans; [exact Hm | apply Hk].
Qed.

Lemma respects_tryCatch {A} (R : relation World) `{!Transitive R}
    (m : M World A) (h : JsError → M World A) :
  respects R m → (∀ e, respects R (h e)) → respects R (tryCatch m h).
Proof.
  intros Hm Hh w. unfold tryCatch. specialize (Hm w).
  destruct (m w) as [[a|e] w']; cbn in *; [done|].
  etrans; [exact Hm | apply Hh].
Qed.

#[local] Instance loaded_stays_preorder : PreOrder loaded_stays.
Proof.
  split; [intros w Hw; exact Hw | intros w1 w2 w3 H12 H23 Hw; auto].
Qed.

#[local] Instance writes_buffer_preorder : PreOrder writes_buffer.
Proof.
  split.
  - intros w. repeat split. exists []. by rewrite app_nil_r.
  - intros w1 w2 w3 (Hu12 & Hc12 & l12 & Hw12 & Hl12)
      (Hu23 & Hc23 & l23 & Hw23 & Hl23).
    split; [congruence|]. split; [congruence|].
    exists (l12 ++ l23). split; [by rewrite Hw23, Hw12, app_assoc|].
    apply Forall_app. split; [done|].
    eapply Forall_impl; [exact Hl23|]. intros e [He1 He2]. split; congruence.
Qed.

Lemma loaded_stays_writeFile (uri content : string) :
  respects loaded_stays (writeFile uri content).
Proof.
  intros w. unfold writeFile.
  destruct (fs_writeFile uri content (disk w)) as [r d].
  intros Hw. exact Hw.
Qed.

Ltac respects_step :=
  first
    [ apply respects_ret; apply _ | apply respects_throw; apply _
    | apply respects_gets; apply _ | apply respects_readFile; apply _
    | apply loaded_stays_writeFile
    | apply respects_modify; intros ? ?; solve [ assumption | by eexists ]
    | apply respects_bind; [apply _| |intros ?]
    | apply respects_tryCatch; [apply _| |intros ?]
    | match goal with
      | |- respects _ (match ?x with _ => _ end) => destruct x
      | |- respects _ (if ?x then _ else _) => destruct x
      end ].

Ltac unfold_methods :=
  unfold resolveWebviewView, onDidReceiveMessage, onDidChangeVisibility,
    _restoreContent, showRecentFiles, provider_togglePreview;
  unfold _openFileByPath, openFile, saveFile, _autoSave, _scheduleAutoSave;
  unfold detached, _loadLastFile, postMessage, notify, clearTimeout.

Lemma loaded_stays_setTimeout (delay : nat) :
  respects loaded_stays (setTimeout delay).
Proof. intros w Hw. exact Hw. Qed.

Lemma loaded_stays_executeCommand (command : string) (args : list JsValue)
    (user : UserAnswers) :
  respects loaded_stays (executeCommand command args user).
Proof.
  unfold executeCommand.
  destruct (activate !! command) as [handler|] eqn:Hcmd;
    [|apply respects_throw; apply _].
  apply elem_of_list_to_map_2 in Hcmd.
  repeat (apply elem_of_cons in Hcmd as [[= -> ->]|Hcmd]); cbv beta.
  - rewrite callMethod_openFile. unfold_methods. repeat respects_step.
  - rewrite callMethod_showRecentFiles. unfold_methods. repeat respects_step.
  - rewrite callMethod_togglePreview. unfold_methods. repeat respects_step.
  - rewrite callMethod_openFileFromUri. apply respects_throw; apply _.
  - by apply elem_of_nil in Hcmd.
Qed.

Lemma loaded_stays_runCallbacks (due : list (nat * nat)) :
  respects loaded_stays (runCallbacks due).
Proof.
  induction due as [|t due IH]; cbn [runCallbacks].
  { apply respects_ret; apply _. }
  apply respects_bind; [apply _| |intros _; exact IH].
  unfold_methods. repeat respects_step.
Qed.

Lemma loaded_stays_hostStep (w : World) (ev : HostEvent) :
  loaded_stays w (hostStep w ev).
Proof.
  unfold hostStep, exec.
  assert (Hev : respects loaded_stays (detached (handle ev))); [|apply Hev].
  destruct ev as [|data|visible|command args user| |ms|d]; cbn [handle].
  - unfold_methods. repeat respects_step.
  - destruct data; unfold_methods;
      repeat first [ respects_step | apply loaded_stays_setTimeout ].
  - unfold_methods. repeat respects_step.
  - unfold detached. apply respects_tryCatch; [apply _| |intros ?].
    + apply loaded_stays_executeCommand.
    + respects_step.
  - unfold_methods. repeat respects_step.
  - unfold detached, elapse.
    repeat first [ respects_step | apply loaded_stays_runCallbacks ].
  - unfold_methods. repeat respects_step.
Qed.

(** X6. No event unloads the file: a provider that has a current file has
    one after every sequence of messages, commands, saves and timers. *)
Theorem loaded_forever (evs : list HostEvent) (w : World) :
  is_Some (_currentFileUri w) → is_Some (_currentFileUri (hostRun evs w)).
Proof.
  revert w. induction evs as [|ev evs IH]; intros w Hw; [done|].
  cbn [hostRun foldl]. apply IH. by apply loaded_stays_hostStep.
Qed.

(** ** What is written, and where *)

Lemma writes_buffer_frame (g : World → World) :
  (∀ w, _currentFileUri (g w) = _currentFileUri w) →
  (∀ w, _currentContent (g w) = _currentContent w) →
  (∀ w, writes (g w) = writes w) →
  respects writes_buffer (modify g).
Proof.
  intros Huri Hcontent Hwrites w. cbn. repeat split; [done..|].
  exists []. by rewrite app_nil_r, Hwrites.
Qed.

Lemma writes_buffer_autoSave : respects writes_buffer (detached _autoSave).
Proof.
  intros w. destruct (_autoSave_run w) as [d ->]. cbn [snd].
  destruct (_currentFileUri w) as [uri|] eqn:Huri; [|reflexivity].
  unfold writes_buffer. cbn. rewrite Huri. repeat split.
  exists [(uri, _currentContent w)]. split; [done|].
  by repeat constructor.
Qed.

Lemma writes_buffer_saveFile : respects writes_buffer (detached saveFile).
Proof.
  intros w.
  unfold detached, saveFile, tryCatch, bind, gets, writeFile, notify, modify.
  destruct (_currentFileUri w) as [uri|] eqn:Huri.
  - destruct (fs_writeFile uri (_currentContent w) (disk w)) as [[[]|e] d];
      unfold writes_buffer; cbn; rewrite Huri; repeat split;
      exists [(uri, _currentContent w)]; (split; [done|]);
      by repeat constructor.
  - unfold writes_buffer. cbn. rewrite Huri. repeat split.
    exists []. by rewrite app_nil_r.
Qed.

Lemma writes_buffer_runCallbacks (due : list (nat * nat)) :
  respects writes_buffer (runCallbacks due).
Proof.
  induction due as [|t due IH]; cbn [runCallbacks].
  { apply respects_ret; apply _. }
  apply respects_bind; [apply _| |intros _; exact IH].
  apply writes_buffer_autoSave.
Qed.

Lemma writes_buffer_elapse (ms : nat) : respects writes_buffer (detached (elapse ms)).
Proof.
  unfold detached, elapse.
  apply respects_tryCatch; [apply _| |intros e; by apply writes_buffer_frame].
  apply respects_bind; [apply _|by apply writes_buffer_frame|intros _].
  apply respects_bind; [apply _|apply respects_gets; apply _|intros now].
  apply respects_bind; [apply _|apply respects_gets; apply _|intros pending].
  apply respects_bind; [apply _|by apply writes_buffer_frame|intros _].
  apply writes_buffer_runCallbacks.
Qed.

Lemma keeps_setTimeout {X} (f : World → X) (delay : nat) :
  (∀ g w, f (upd_timers g w) = f w) → (∀ g w, f (upd_nextTimer g w) = f w) →
  keeps f (setTimeout delay).
Proof. intros Ht Hn w. unfold setTimeout. cbn. by rewrite Hn, Ht. Qed.

Lemma executeCommand_writes (command : string) (args : list JsValue)
    (user : UserAnswers) :
  keeps writes (executeCommand command args user).
Proof.
  unfold executeCommand.
  destruct (activate !! command) as [handler|] eqn:Hcmd; [|apply keeps_throw].
  apply elem_of_list_to_map_2 in Hcmd.
  repeat (apply elem_of_cons in Hcmd as [[= -> ->]|Hcmd]); cbv beta.
  - rewrite callMethod_openFile. unfold_methods. keeps_all fail.
  - rewrite callMethod_showRecentFiles. unfold_methods. keeps_all fail.
  - rewrite callMethod_togglePreview. unfold_methods. keeps_all fail.
  - rewrite callMethod_openFileFromUri. apply keeps_throw.
  - by apply elem_of_nil in Hcmd.
Qed.

(** X7. Whatever the event, the calls of [writeFile] it causes all write
    the buffer the provider holds to the file that is current when the
    event arrives: no other path is ever written, and no other text. *)
Theorem writes_only_current_buffer (w : World) (ev : HostEvent) :
  ∃ l, writes (hostStep w ev) = writes w ++ l
       ∧ Forall (λ e, _currentFileUri w = Some e.1 ∧ e.2 = _currentContent w) l.
Proof.
  unfold hostStep, exec.
  assert (Hquiet : keeps writes (detached (handle ev)) →
            ∃ l, writes (detached (handle ev) w).2 = writes w ++ l
                 ∧ Forall (λ e, _currentFileUri w = Some e.1
                                ∧ e.2 = _currentContent w) l).
  { intros Hkeeps. exists []. by rewrite app_nil_r, Hkeeps. }
  destruct ev as [|data|visible|command args user| |ms|d]; cbn [handle].
  - apply Hquiet. unfold_methods. keeps_all fail.
  - apply Hquiet. destruct data; unfold_methods;
      keeps_all ltac:(apply keeps_setTimeout; reflexivity).
  - apply Hquiet. unfold_methods. keeps_all fail.
  - apply Hquiet. unfold detached. apply keeps_tryCatch; [|intros ?].
    + apply executeCommand_writes.
    + by apply keeps_modify.
  - destruct (writes_buffer_saveFile w) as (_ & _ & Hl). exact Hl.
  - destruct (writes_buffer_elapse ms w) as (_ & _ & Hl). exact Hl.
  - apply Hquiet. unfold_methods. keeps_all fail.
Qed.

(** X8. In every reachable world at most one timer is pending, and it is
    the one whose handle [_autoSaveTimeout] holds. *)
Theorem reachable_one_timer (w : World) :
  reachable w →
  (length (timers w) ≤ 1)%nat
  ∧ ∀ t, t ∈ timers w → _autoSaveTimeout w = Some t.1.
Proof.
  intros Hw. apply reachable_invariant in Hw.
  destruct Hw as [Hnone|(h & due & Hone & Hheld)].
  - rewrite Hnone. split; [cbn; lia|]. intros t Ht. by apply elem_of_nil in Ht.
  - rewrite Hone. split; [cbn; lia|].
    intros t Ht. apply list_elem_of_singleton in Ht as ->. done.
Qed.



(** ** Restoring the view *)

Lemma postMessage_run (m : WebviewMessage) (w : World) :
  postMessage m w
  = (Normal tt,
     match _view w with
     | Some _ => upd_posted (λ l, l ++ [m]) w
     | None => w
     end).
Proof. unfold postMessage, bind, gets, modify, ret. by destruct (_view w). Qed.

Lemma postMessage_posts (m : WebviewMessage) (w : World) :
  ∃ posts, postMessage m w = (Normal tt, upd_posted posts w).
Proof.
  rewrite postMessage_run. destruct (_view w); [by eexists|].
  exists (λ l, l). by destruct w.
Qed.

(** X10. With a file loaded and a buffer that is not empty, [ready] and
    the view becoming visible post the buffer the provider holds, edits
    included, with the file name; nothing is read and nothing else
    changes. *)
Theorem restore_posts_buffer (w : World) (uri : string) :
  _view w = Some webviewView →
  _currentFileUri w = Some uri →
  _currentContent w ≠ "" →
  hostStep w (ReceiveMessage ready)
  = upd_posted
      (λ l, l ++ [loadContent (_currentContent w) (_getFilename uri)]) w
  ∧ hostStep w (ChangeVisibility true) = hostStep w (ReceiveMessage ready).
Proof.
  intros Hview Huri Hcontent.
  assert (Hrestore : _restoreContent w
            = (Normal tt,
               upd_posted
                 (λ l, l ++ [loadContent (_currentContent w) (_getFilename uri)])
                 w)).
  { unfold _restoreContent, bind, gets. rewrite Huri.
    rewrite decide_False by done. by rewrite postMessage_run, Hview. }
  unfold hostStep, exec, detached, tryCatch. cbn [handle].
  unfold onDidReceiveMessage, onDidChangeVisibility, bind, gets.
  rewrite Hview. cbn -[_restoreContent]. rewrite Huri.
  cbn -[_restoreContent]. by rewrite Hrestore.
Qed.

Lemma handle_ready (w : World) :
  _view w = Some webviewView →
  handle (ReceiveMessage ready) w = _restoreContent w.
Proof. intros Hview. cbn [handle]. unfold bind, gets. by rewrite Hview. Qed.

Lemma _restoreContent_empty (w : World) :
  _currentFileUri w = None → _restoreContent w = detached _loadLastFile w.
Proof. intros Hempty. unfold _restoreContent, bind, gets. by rewrite Hempty. Qed.

Lemma _loadLastFile_missing (w : World) (p : string) (e : JsError) :
  get_string (workspaceState w) LAST_FILE_KEY = Some p → p ≠ "" →
  fs_readFile p (disk w) = Throw e →
  _loadLastFile w = (Normal tt, upd_workspaceState (delete LAST_FILE_KEY) w).
Proof.
  intros Hlast Hp Hread.
  unfold _loadLastFile, tryCatch, bind, gets, readFile, modify.
  rewrite Hlast, decide_False by done. by rewrite Hread.
Qed.

Lemma _loadLastFile_nothing (w : World) :
  get_string (workspaceState w) LAST_FILE_KEY = None →
  _loadLastFile w = (Normal tt, w).
Proof.
  intros Hlast. unfold _loadLastFile, bind, gets. by rewrite Hlast.
Qed.

(** X11. When the stored last file cannot be read, [ready] on a provider
    without file only clears the stored path: the recent files stay, no
    file is loaded, nothing is shown or posted; a second [ready] then
    does nothing. *)
Theorem lastFile_missing_recovery (w : World) (p : string) (e : JsError) :
  _view w = Some webviewView →
  _currentFileUri w = None →
  get_string (workspaceState w) LAST_FILE_KEY = Some p →
  p ≠ "" →
  fs_readFile p (disk w) = Throw e →
  let w1 := hostStep w (ReceiveMessage ready) in
  w1 = upd_workspaceState (delete LAST_FILE_KEY) w
  ∧ get_string (workspaceState w1) LAST_FILE_KEY = None
  ∧ recentFiles (workspaceState w1) = recentFiles (workspaceState w)
  ∧ hostStep w1 (ReceiveMessage ready) = w1.
Proof.
  intros Hview Hempty Hlast Hp Hread w1.
  assert (Hw1 : w1 = upd_workspaceState (delete LAST_FILE_KEY) w).
  { unfold w1, hostStep, exec, detached at 1, tryCatch at 1.
    rewrite handle_ready, _restoreContent_empty by done.
    unfold detached, tryCatch.
    by rewrite (_loadLastFile_missing w p e). }
  clearbody w1.
  assert (Hgone : get_string (workspaceState w1) LAST_FILE_KEY = None).
  { rewrite Hw1. cbn. unfold get_string. by rewrite lookup_delete_eq. }
  split; [done|]. split; [done|]. split.
  - rewrite Hw1. cbn. unfold recentFiles, get_strings.
    by rewrite lookup_delete_ne.
  - unfold hostStep, exec, detached at 1, tryCatch at 1.
    rewrite handle_ready, _restoreContent_empty by (by rewrite Hw1).
    unfold detached, tryCatch. by rewrite _loadLastFile_nothing.
Qed.

(** ** Opening, and finding the file again *)

Lemma detached_detached (m : M World unit) (w : World) :
  detached (detached m) w = detached m w.
Proof.
  unfold detached, tryCatch, modify. by destruct (m w) as [[[]|e] w'].
Qed.

Lemma hostStep_open (w : World) (args : list JsValue) (user : UserAnswers) :
  hostStep w (ExecuteCommand "markdownSidebar.open" args user)
  = exec (detached (openFile user)) w.
Proof.
  unfold hostStep, exec. cbn [handle].
  change (executeCommand "markdownSidebar.open" args user)
    with (detached (openFile user)).
  by rewrite detached_detached.
Qed.

Lemma hostStep_recentFiles (w : World) (args : list JsValue) (user : UserAnswers) :
  hostStep w (ExecuteCommand "markdownSidebar.recentFiles" args user)
  = exec (detached (showRecentFiles user)) w.
Proof.
  unfold hostStep, exec. cbn [handle].
  change (executeCommand "markdownSidebar.recentFiles" args user)
    with (detached (showRecentFiles user)).
  by rewrite detached_detached.
Qed.

Lemma openFile_success (w : World) (user : UserAnswers)
    (p : string) (others : list string) (c : string) :
  openDialogAnswer user = Some (p :: others) →
  fs_readFile p (disk w) = Normal c →
  openFile user w
  = postMessage (loadContent c (_getFilename p))
      (upd_workspaceState (_saveLastFile p)
         (upd_currentContent (λ _, c)
            (upd_currentFileUri (λ _, Some p) w))).
Proof.
  intros Hpick Hread. unfold openFile. rewrite Hpick.
  unfold bind at 1 2, modify at 1, readFile. cbn [disk upd_currentFileUri].
  by rewrite Hread.
Qed.

Lemma _openFileByPath_success (w : World) (p c : string) :
  fs_readFile p (disk w) = Normal c →
  _openFileByPath p w
  = postMessage (loadContent c (_getFilename p))
      (upd_workspaceState (_saveLastFile p)
         (upd_currentContent (λ _, c)
            (upd_currentFileUri (λ _, Some p) w))).
Proof.
  intros Hread. unfold _openFileByPath, tryCatch, bind at 1, readFile.
  rewrite Hread. unfold bind, modify. rewrite postMessage_run. done.
Qed.

Lemma _loadLastFile_found (w : World) (p c : string) :
  get_string (workspaceState w) LAST_FILE_KEY = Some p → p ≠ "" →
  fs_readFile p (disk w) = Normal c →
  _loadLastFile w
  = postMessage (loadContent c (_getFilename p))
      (upd_currentContent (λ _, c) (upd_currentFileUri (λ _, Some p) w)).
Proof.
  intros Hlast Hp Hread.
  unfold _loadLastFile, tryCatch, bind at 1 2, gets, readFile.
  rewrite Hlast, decide_False by done. rewrite Hread.
  unfold bind, modify. rewrite postMessage_run. done.
Qed.

Lemma _saveLastFile_last (p : string) (ws : gmap string WsValue) :
  get_string (_saveLastFile p ws) LAST_FILE_KEY = Some p.
Proof.
  unfold get_string, _saveLastFile, _addToRecentFiles.
  by rewrite lookup_insert_ne, lookup_insert_eq.
Qed.

Lemma _saveLastFile_recent (p : string) (ws : gmap string WsValue) :
  recentFiles (_saveLastFile p ws)
  = take MAX_RECENT_FILES (p :: filter (λ f, f ≠ p) (recentFiles ws)).
Proof.
  unfold _saveLastFile. rewrite recentFiles_add.
  unfold recentFiles, get_strings. by rewrite lookup_insert_ne.
Qed.

Lemma hostStep_ready_restores (w : World) (p c : string) :
  _view w = Some webviewView →
  _currentFileUri w = None →
  get_string (workspaceState w) LAST_FILE_KEY = Some p → p ≠ "" →
  fs_readFile p (disk w) = Normal c →
  hostStep w (ReceiveMessage ready)
  = upd_posted (λ l, l ++ [loadContent c (_getFilename p)])
      (upd_currentContent (λ _, c) (upd_currentFileUri (λ _, Some p) w)).
Proof.
  intros Hview Hempty Hlast Hp Hread.
  unfold hostStep, exec, detached at 1, tryCatch at 1.
  rewrite handle_ready, _restoreContent_empty by done.
  unfold detached, tryCatch.
  rewrite (_loadLastFile_found w p c) by done.
  rewrite postMessage_run. cbn. by rewrite Hview.
Qed.

(** X12. A file opened with the dialog is found again by a provider
    started later on the same workspace state: the path is stored as last
    file and heads the recent files, and after [resolveWebviewView] and
    [ready] the new provider has loaded it with the content the disk has
    then, and posts it with its name. *)
Theorem open_then_restore (w : World) (user : UserAnswers)
    (p : string) (others : list string) (c : string) (d' : FS) (c' : string) :
  openDialogAnswer user = Some (p :: others) →
  p ≠ "" →
  fs_readFile p (disk w) = Normal c →
  fs_readFile p d' = Normal c' →
  let opened := hostStep w (ExecuteCommand "markdownSidebar.open" [] user) in
  let restarted :=
    hostRun [ResolveWebviewView; ReceiveMessage ready]
      (newWorld (workspaceState opened) d') in
  (_currentFileUri opened = Some p
   ∧ _currentContent opened = c
   ∧ get_string (workspaceState opened) LAST_FILE_KEY = Some p
   ∧ recentFiles (workspaceState opened) !! 0 = Some p)
  ∧ _currentFileUri restarted = Some p
  ∧ _currentContent restarted = c'
  ∧ posted restarted = [loadContent c' (_getFilename p)].
Proof.
  intros Hpick Hp Hread Hread' opened restarted.
  assert (Hopened : ∃ posts,
            opened = upd_posted posts
                       (upd_workspaceState (_saveLastFile p)
                          (upd_currentContent (λ _, c)
                             (upd_currentFileUri (λ _, Some p) w)))).
  { unfold opened. rewrite hostStep_open. unfold exec, detached, tryCatch.
    rewrite (openFile_success w user p others c) by done.
    destruct (postMessage_posts (loadContent c (_getFilename p))
                (upd_workspaceState (_saveLastFile p)
                   (upd_currentContent (λ _, c)
                      (upd_currentFileUri (λ _, Some p) w))))
      as [posts ->].
    by exists posts. }
  destruct Hopened as [posts Hopened].
  assert (Hlast : get_string (workspaceState opened) LAST_FILE_KEY = Some p).
  { rewrite Hopened. cbn -[_saveLastFile]. apply _saveLastFile_last. }
  split.
  { rewrite Hopened. cbn -[_saveLastFile]. repeat split.
    - apply _saveLastFile_last.
    - by rewrite _saveLastFile_recent. }
  unfold restarted, hostRun. cbn [foldl].
  change (hostStep (newWorld (workspaceState opened) d') ResolveWebviewView)
    with (upd_view (λ _, Some webviewView) (newWorld (workspaceState opened) d')).
  clearbody opened.
  set (w0 := upd_view _ _).
  by rewrite (hostStep_ready_restores w0 p c').
Qed.

(** X13. [showRecentFiles] opens nothing unless the user picks an entry:
    with an empty list it only shows [No recent files]; when the pick is
    cancelled it changes nothing at all. *)
Theorem showRecentFiles_without_pick (w : World) (user : UserAnswers) :
  quickPickAnswer user ≫= (recentFiles (workspaceState w) !!.) = None →
  showRecentFiles user w
  = (Normal tt,
     if decide (recentFiles (workspaceState w) = []) then
       upd_notifications (λ l, l ++ [showInformationMessage "No recent files"]) w
     else w).
Proof.
  intros Hpick. unfold showRecentFiles, bind, gets, notify, modify, ret.
  destruct (recentFiles (workspaceState w)) as [|f l] eqn:Hrecent; [done|].
  cbn [length]. rewrite decide_False by done. rewrite decide_False by done.
  by rewrite Hpick.
Qed.

(** X14. Picking an entry of the recent files whose read succeeds loads
    it: it becomes the current file with the content read, is stored as
    last file and moves to the front of the recent files; nothing is
    written and nothing is shown. *)
Theorem recent_pick_opens (w : World) (user : UserAnswers) (i : nat) (p c : string) :
  quickPickAnswer user = Some i →
  recentFiles (workspaceState w) !! i = Some p →
  fs_readFile p (disk w) = Normal c →
  let w' := hostStep w (ExecuteCommand "markdownSidebar.recentFiles" [] user) in
  _currentFileUri w' = Some p
  ∧ _currentContent w' = c
  ∧ get_string (workspaceState w') LAST_FILE_KEY = Some p
  ∧ recentFiles (workspaceState w')
    = p :: take (MAX_RECENT_FILES - 1)
             (filter (λ f, f ≠ p) (recentFiles (workspaceState w)))
  ∧ notifications w' = notifications w
  ∧ writes w' = writes w.
Proof.
  intros Hpick Hentry Hread w'.
  assert (Hw' : ∃ posts,
            w' = upd_posted posts
                   (upd_workspaceState (_saveLastFile p)
                      (upd_currentContent (λ _, c)
                         (upd_currentFileUri (λ _, Some p) w)))).
  { unfold w'. rewrite hostStep_recentFiles. unfold exec, detached, tryCatch.
    unfold showRecentFiles, bind at 1, gets.
    destruct (recentFiles (workspaceState w)) as [|f l] eqn:Hrecent; [done|].
    cbn [length]. rewrite decide_False by done.
    rewrite Hpick. cbn [mbind option_bind]. rewrite Hentry.
    rewrite (_openFileByPath_success w p c) by done.
    destruct (postMessage_posts (loadContent c (_getFilename p))
                (upd_workspaceState (_saveLastFile p)
                   (upd_currentContent (λ _, c)
                      (upd_currentFileUri (λ _, Some p) w))))
      as [posts ->].
    by exists posts. }
  destruct Hw' as [posts ->]. cbn -[_saveLastFile]. repeat split.
  - apply _saveLastFile_last.
  - by rewrite _saveLastFile_recent.
Qed.

(** ** The pending timer and the other operations *)

Lemma hostStep_saveFile (w : World) (uri : string) :
  _currentFileUri w = Some uri →
  ∃ d n, hostStep w SaveFile
         = upd_notifications (λ l, l ++ [n])
             (upd_writes (λ l, l ++ [(uri, _currentContent w)])
                (upd_disk (λ _, d) w)).
Proof.
  intros Huri. unfold hostStep, exec, detached. cbn [handle].
  unfold saveFile, tryCatch, bind, gets, writeFile, notify, modify.
  rewrite Huri.
  destruct (fs_writeFile uri (_currentContent w) (disk w)) as [[[]|e] d];
    by eexists _, _.
Qed.


(** X15. A manual save neither cancels nor replaces the pending auto-save:
    after an edit, a save and a second of silence, the log of writes has
    grown by two writes of the edited text to the current file, the second
    by the timer, whether or not the first one succeeded. *)
Theorem manual_save_keeps_timer (w : World) (uri text : string) (wait : nat) :
  reachable w →
  _view w = Some webviewView →
  _currentFileUri w = Some uri →
  (1000 ≤ wait)%nat →
  let w' := hostRun [ReceiveMessage (contentChanged text); SaveFile; Elapse wait] w in
  writes w' = writes w ++ [(uri, text); (uri, text)]
  ∧ timers w' = [].
Proof.
  intros Hreach Hview Huri Hwait. apply reachable_invariant in Hreach.
  cbn zeta. unfold hostRun. cbn [foldl].
  pose proof (hostStep_contentChanged w text Hview Hreach) as Hw1.
  set (w1 := hostStep w (ReceiveMessage (contentChanged text))) in *.
  assert (Hf1 : _currentFileUri w1 = Some uri ∧ _currentContent w1 = text
                ∧ writes w1 = writes w
                ∧ timers w1 = [(nextTimer w, clock w + 1000)]
                ∧ clock w1 = clock w)
    by (by rewrite Hw1).
  clearbody w1. clear Hw1. destruct Hf1 as (Hu1 & Hc1 & Hwr1 & Ht1 & Hcl1).
  destruct (hostStep_saveFile w1 uri Hu1) as (d & n & Hw2).
  set (w2 := hostStep w1 SaveFile) in *.
  assert (Hf2 : _currentFileUri w2 = Some uri ∧ _currentContent w2 = text
                ∧ writes w2 = writes w ++ [(uri, text)]
                ∧ timers w2 = [(nextTimer w, clock w + 1000)]
                ∧ clock w2 = clock w)
    by (rewrite Hw2; cbn; by rewrite Hc1, Hwr1).
  clearbody w2. clear Hw2. destruct Hf2 as (Hu2 & Hc2 & Hwr2 & Ht2 & Hcl2).
  destruct (hostStep_elapse_fire w2 (nextTimer w) (clock w + 1000) wait)
    as [d' ->]; [done|lia|].
  cbv zeta. rewrite Hu2. cbn. rewrite Hwr2, Hc2.
  by rewrite <- app_assoc.
Qed.


(** ** Before the view is resolved *)

#[local] Instance unseen_preorder : PreOrder unseen.
Proof.
  split; [by intros w Hw|].
  intros w1 w2 w3 H12 H23 Hw. destruct (H12 Hw) as [Hv2 Hp2].
  destruct (H23 Hv2) as [Hv3 Hp3]. split; congruence.
Qed.

Lemma unseen_postMessage (m : WebviewMessage) : respects unseen (postMessage m).
Proof. intros w Hw. rewrite postMessage_run, Hw. done. Qed.

Lemma unseen_writeFile (uri content : string) :
  respects unseen (writeFile uri content).
Proof.
  intros w. unfold writeFile.
  destruct (fs_writeFile uri content (disk w)) as [r d]. by intros Hw.
Qed.

Lemma unseen_setTimeout (delay : nat) : respects unseen (setTimeout delay).
Proof. by intros w Hw. Qed.

Ltac unseen_step :=
  first
    [ apply respects_ret; apply _ | apply respects_throw; apply _
    | apply respects_gets; apply _ | apply respects_readFile; apply _
    | apply unseen_postMessage | apply unseen_writeFile
    | apply unseen_setTimeout
    | apply respects_modify; intros ? ?; by split
    | apply respects_bind; [apply _| |intros ?]
    | apply respects_tryCatch; [apply _| |intros ?]
    | match goal with
      | |- respects _ (match ?x with _ => _ end) => destruct x
      | |- respects _ (if ?x then _ else _) => destruct x
      end ].

Ltac unfold_methods_but_post :=
  unfold onDidReceiveMessage, onDidChangeVisibility,
    _restoreContent, showRecentFiles, provider_togglePreview;
  unfold _openFileByPath, openFile, saveFile, _autoSave, _scheduleAutoSave;
  unfold detached, _loadLastFile, notify, clearTimeout.

Lemma unseen_executeCommand (command : string) (args : list JsValue)
    (user : UserAnswers) :
  respects unseen (executeCommand command args user).
Proof.
  unfold executeCommand.
  destruct (activate !! command) as [handler|] eqn:Hcmd;
    [|apply respects_throw; apply _].
  apply elem_of_list_to_map_2 in Hcmd.
  repeat (apply elem_of_cons in Hcmd as [[= -> ->]|Hcmd]); cbv beta.
  - rewrite callMethod_openFile. unfold_methods_but_post. repeat unseen_step.
  - rewrite callMethod_showRecentFiles. unfold_methods_but_post.
    repeat unseen_step.
  - rewrite callMethod_togglePreview. unfold_methods_but_post.
    repeat unseen_step.
  - rewrite callMethod_openFileFromUri. apply respects_throw; apply _.
  - by apply elem_of_nil in Hcmd.
Qed.

Lemma unseen_runCallbacks (due : list (nat * nat)) :
  respects unseen (runCallbacks due).
Proof.
  induction due as [|t due IH]; cbn [runCallbacks].
  { apply respects_ret; apply _. }
  apply respects_bind; [apply _| |intros _; exact IH].
  unfold_methods_but_post. repeat unseen_step.
Qed.

Lemma unseen_hostStep (w : World) (ev : HostEvent) :
  ev ≠ ResolveWebviewView → unseen w (hostStep w ev).
Proof.
  intros Hev. unfold hostStep, exec.
  assert (Hrespects : respects unseen (detached (handle ev)));
    [|apply Hrespects].
  destruct ev as [|data|visible|command args user| |ms|d]; cbn [handle].
  - done.
  - destruct data; unfold_methods_but_post; repeat unseen_step.
  - unfold_methods_but_post. repeat unseen_step.
  - unfold detached. apply respects_tryCatch; [apply _| |intros ?].
    + apply unseen_executeCommand.
    + unseen_step.
  - unfold_methods_but_post. repeat unseen_step.
  - unfold detached, elapse.
    repeat first [ unseen_step | apply unseen_runCallbacks ].
  - unfold_methods_but_post. repeat unseen_step.
Qed.

(** X21. As long as [resolveWebviewView] has not run, no event makes the
    provider post a message: commands, saves and timers leave the list of
    posted messages as it is, and no view appears. *)
Theorem no_post_without_view (evs : list HostEvent) (w : World) :
  _view w = None →
  Forall (λ ev, ev ≠ ResolveWebviewView) evs →
  _view (hostRun evs w) = None ∧ posted (hostRun evs w) = posted w.
Proof.
  intros Hview Hevs. revert w Hview.
  induction Hevs as [|ev evs Hev _ IH]; intros w Hview; [done|].
  change (hostRun (ev :: evs) w) with (hostRun evs (hostStep w ev)).
  destruct (unseen_hostStep w ev Hev Hview) as [Hview' Hposted'].
  destruct (IH _ Hview') as [Hview'' Hposted'']. split; congruence.
Qed.

End HostFacts.

(** ** The script on a sample document *)

(** The extraction on the sample: the two fenced blocks become placeholders
    and the declared kind is the first word of the trimmed body. *)
Example extraction_sample :
  replaceMermaid sampleDocument 0 0
  = ("# Title" +:+ lf +:+ placeholderDiv "mermaid-0" +:+ lf
     +:+ placeholderDiv "mermaid-1" +:+ lf,
     [mkBlock "mermaid-0" "not a real <diagram>" "not";
      mkBlock "mermaid-1" ("graph TD" +:+ lf +:+ "A-->B") "graph"],
     2%N).
Proof. vm_compute. reflexivity. Qed.

(** A fence with nothing but white space is of kind [unknown]; a fence that
    is not closed, or whose tag is followed by text, is left alone. *)
Example extraction_corner_cases :
  (replaceMermaid ("```mermaid  " +:+ lf +:+ lf +:+ " ```") 0 7).1.2
  = [mkBlock "mermaid-7" "" "unknown"]
  ∧ (replaceMermaid ("```mermaid" +:+ lf +:+ "graph TD") 0 0).1.2 = []
  ∧ (replaceMermaid ("```mermaid x" +:+ lf +:+ "```") 0 0).1.2 = [].
Proof. vm_compute. repeat split. Qed.

Lemma C5_failure_isolation_witness :
  completion (renderPreview sampleDocument) sampleLoaded = Normal tt
  ∧ preview_elements (exec (renderPreview sampleDocument) sampleLoaded) !! "mermaid-0"
    = Some (errorPresentation sampleBlock0
              (mkError "Error" "Parse error: not a real <diagram>")).
Proof.
  assert (Hin : sampleBlock0 ∈ extractedBlocks sampleDocument sampleLoaded)
    by (vm_compute; left).
  assert (Hel : is_Some
            (elementsById
               (marked_parse
                  (replaceMermaid sampleDocument 0 (mermaidId sampleLoaded)).1.1)
             !! id sampleBlock0))
    by (vm_compute; eexists; reflexivity).
  destruct (C5_failure_isolation sampleDocument sampleLoaded sampleBlock0 Hin Hel)
    as (Hdone & Hown & _).
  split; [exact Hdone | exact Hown].
Defined.

(** The second pass over the same document starts at 2, not at 0. *)
Lemma C2_counterexample :
  let pass1 := sampleLoaded in
  let pass2 :=
    webviewRun [Message togglePreview; Message togglePreview] sampleLoaded in
  map id (extractedBlocks sampleDocument pass1) = ["mermaid-0"; "mermaid-1"]
  ∧ mermaidId pass2 = 2%N
  ∧ map id (extractedBlocks sampleDocument pass2) = ["mermaid-2"; "mermaid-3"].
Proof. vm_compute. repeat split. Qed.

(** ** The provider on sample worlds *)

(** A write that rejects: the auto-save says nothing, the manual save
    reports the error. *)
Example save_on_broken_disk :
  let w := hostStep loadedWorld
             (DiskChanged (mkDisk ∅ {[ "/notes/a.md" ]})) in
  completion _autoSave w = Normal tt
  ∧ notifications (exec _autoSave w) = []
  ∧ writes (exec _autoSave w) = [("/notes/a.md", "alpha")]
  ∧ notifications (exec saveFile w)
    = [showErrorMessage "Failed to save file: Error: EIO"].
Proof. vm_compute. repeat split. Qed.

(** With no file loaded the message arms a timer and replaces the buffer. *)
Lemma C1_counterexample :
  let w1 := hostStep emptyWorld (ReceiveMessage (contentChanged "x")) in
  _currentFileUri emptyWorld = None
  ∧ timers emptyWorld = []
  ∧ _currentContent emptyWorld = ""
  ∧ timers w1 = [(0, 1000)]
  ∧ _currentContent w1 = "x".
Proof. vm_compute. repeat split. Qed.

Lemma C1_update_while_empty_witness :
  let w1 := hostStep emptyWorld (ReceiveMessage (contentChanged "x")) in
  timers w1 = [(0, 1000)]
  ∧ timers (hostStep w1 (Elapse 1000)) = []
  ∧ writes (hostStep w1 (Elapse 1000)) = [].
Proof.
  assert (Hreach : reachable emptyWorld) by apply reachable_step, reachable_new.
  assert (Hview : _view emptyWorld = Some webviewView) by reflexivity.
  assert (Hempty : _currentFileUri emptyWorld = None) by reflexivity.
  assert (Hms : (1000 ≤ 1000)%nat) by lia.
  destruct (C1_update_while_empty emptyWorld "x" 1000 Hreach Hview Hempty Hms)
    as (_ & _ & _ & Harmed & Hfired & Hwrites & _).
  exact (conj Harmed (conj Hfired Hwrites)).
Defined.

(** Two edits in a row with no file loaded: the timer is armed and fires,
    and nothing is written. *)
Lemma C4_counterexample :
  let edits := [ReceiveMessage (contentChanged "a"); Elapse 300;
                ReceiveMessage (contentChanged "ab")] in
  _view emptyWorld = Some webviewView
  ∧ timers (hostRun edits emptyWorld) = [(1, 1300)]
  ∧ timers (hostRun (edits ++ [Elapse 1000]) emptyWorld) = []
  ∧ writes (hostRun (edits ++ [Elapse 1000]) emptyWorld) = [].
Proof. vm_compute. repeat split. Qed.

Lemma C4_debounced_write_witness :
  writes
    (hostRun
       (burst [("alpha1", 300); ("alpha12", 999)]
        ++ [ReceiveMessage (contentChanged "alpha123"); Elapse 1000])
       loadedWorld)
  = [("/notes/a.md", "alpha123")].
Proof.
  assert (Hreach : reachable loadedWorld)
    by apply reachable_step, reachable_step, reachable_new.
  assert (Hview : _view loadedWorld = Some webviewView) by reflexivity.
  assert (Hgaps : Forall (λ e : string * nat, (e.2 < 1000)%nat)
                    [("alpha1", 300); ("alpha12", 999)])
    by (repeat constructor; cbn; lia).
  assert (Hwait : (1000 ≤ 1000)%nat) by lia.
  exact (proj1 (C4_debounced_write loadedWorld
                  [("alpha1", 300); ("alpha12", 999)] "alpha123" 1000
                  Hreach Hview Hgaps Hwait)).
Defined.

(** C3. [openFile] on a path whose read rejects: with [/notes/a.md] loaded
    and the user picking a file that cannot be read, the provider ends with
    the new path next to the old text, shows nothing, and the rejection
    stays unhandled; the next auto-save then writes the old text, edited,
    to the new path.  Through the recent files ([_openFileByPath]), with
    [/notes/b.md] loaded and [/notes/a.md] gone from the disk, the same
    failure is reported and the path and the text are kept. *)
Theorem C3_openFile_read_failure :
  let w := hostStep loadedWorld
             (ExecuteCommand "markdownSidebar.open" [] (picks "/notes/gone.md")) in
  let later := hostRun [ReceiveMessage (contentChanged "alpha!"); Elapse 1000] w in
  let recent := hostRun
                  [ExecuteCommand "markdownSidebar.open" [] (picks "/notes/b.md");
                   DiskChanged (mkDisk {[ "/notes/b.md" := "beta" ]} ∅);
                   ExecuteCommand "markdownSidebar.recentFiles" []
                     (mkAnswers None (Some 1))]
                  loadedWorld in
  (_currentFileUri loadedWorld = Some "/notes/a.md"
   ∧ _currentContent loadedWorld = "alpha"
   ∧ fs_readFile "/notes/gone.md" (disk loadedWorld)
     = Throw (mkError "Error" "ENOENT"))
  ∧ (_currentFileUri w = Some "/notes/gone.md"
     ∧ _currentContent w = "alpha"
     ∧ notifications w = []
     ∧ unhandledRejections w = [mkError "Error" "ENOENT"])
  ∧ writes later = [("/notes/gone.md", "alpha!")]
  ∧ (recentFiles (workspaceState recent) = ["/notes/b.md"; "/notes/a.md"]
     ∧ _currentFileUri recent = Some "/notes/b.md"
     ∧ _currentContent recent = "beta"
     ∧ notifications recent = [showErrorMessage "Failed to open file: /notes/a.md"]
     ∧ unhandledRejections recent = []).
Proof. vm_compute. repeat split. Qed.

(** ** File names *)

Lemma lastSegment_plain (cur s : string) :
  occurs "/" s = false → occurs "\" s = false → lastSegment cur s = cur +:+ s.
Proof.
  revert cur. induction s as [|c s IH]; intros cur Hslash Hback; cbn in *.
  { by rewrite append_nil_r. }
  apply orb_false_iff in Hslash as [Hc1 Hslash], Hback as [Hc2 Hback].
  apply bool_decide_eq_false in Hc1, Hc2.
  rewrite bool_decide_eq_false_2 by (intros [?|?]; congruence).
  rewrite IH by done. rewrite append_assoc. done.
Qed.

Lemma lastSegment_after_separator (cur dir rest : string) (sep : ascii) :
  sep = "/"%char ∨ sep = "\"%char →
  lastSegment cur (dir +:+ String sep rest) = lastSegment "" rest.
Proof.
  intros Hsep. revert cur. induction dir as [|c dir IH]; intros cur.
  - rewrite append_nil_l. cbn. by rewrite bool_decide_eq_true_2.
  - rewrite append_cons. cbn. destruct (bool_decide _); apply IH.
Qed.

Lemma lastSegment_no_separator (cur s : string) (sep : ascii) :
  sep = "/"%char ∨ sep = "\"%char →
  occurs sep cur = false → occurs sep (lastSegment cur s) = false.
Proof.
  intros Hsep. revert cur. induction s as [|c s IH]; intros cur Hcur; [done|].
  cbn. destruct (bool_decide (c = "/"%char ∨ c = "\"%char)) eqn:Hc.
  - by apply IH.
  - apply IH. rewrite occurs_app, Hcur. cbn.
    apply bool_decide_eq_false in Hc.
    rewrite bool_decide_eq_false_2; [done|].
    intros ->. apply Hc. destruct Hsep as [->| ->]; auto.
Qed.

(** X1. The name shown for a path is what follows its last separator,
    slash or backslash; a path without separator is its own name. *)
Theorem getFilename_last_segment (dir name : string) (sep : ascii) :
  sep = "/"%char ∨ sep = "\"%char →
  occurs "/" name = false →
  occurs "\" name = false →
  _getFilename (dir +:+ String sep name) = name
  ∧ _getFilename name = name.
Proof.
  intros Hsep Hslash Hback. unfold _getFilename. split.
  - rewrite lastSegment_after_separator by done.
    by rewrite lastSegment_plain.
  - by rewrite lastSegment_plain.
Qed.

Lemma getFilename_last_segment_witness :
  _getFilename ("C:\notes/sub" +:+ String "\" "todo.md") = "todo.md"
  ∧ _getFilename "todo.md" = "todo.md".
Proof.
  apply (getFilename_last_segment "C:\notes/sub" "todo.md" "\");
    [by right | reflexivity | reflexivity].
Defined.

(** X2. The name shown never holds a separator, whatever the path; for a
    path that ends with a separator it is empty. *)
Theorem getFilename_no_separator (fsPath : string) :
  occurs "/" (_getFilename fsPath) = false
  ∧ occurs "\" (_getFilename fsPath) = false
  ∧ _getFilename (fsPath +:+ "/") = ""
  ∧ _getFilename (fsPath +:+ "\") = "".
Proof.
  unfold _getFilename. repeat split.
  - apply lastSegment_no_separator; auto.
  - apply lastSegment_no_separator; auto.
  - by rewrite lastSegment_after_separator by auto.
  - by rewrite lastSegment_after_separator by auto.
Qed.

(** ** Escaping *)

Lemma replaceChar_absent (c : ascii) (by_ s : string) :
  occurs c s = false → replaceChar c by_ s = s.
Proof.
  induction s as [|a s IH]; intros Hc; cbn in *; [done|].
  apply orb_false_iff in Hc as [Ha Hc]. apply bool_decide_eq_false in Ha.
  rewrite decide_False by done. by rewrite IH.
Qed.

(** ** The pattern of a diagram block *)

Lemma stripPrefix_sound (p s rest : string) :
  stripPrefix p s = Some rest → s = p +:+ rest.
Proof.
  revert s. induction p as [|a p IH]; intros s Hs; cbn in Hs.
  { by injection Hs as ->. }
  destruct s as [|b s]; [done|].
  destruct (decide (a = b)) as [->|]; [|done].
  rewrite append_cons. f_equal. by apply IH.
Qed.

Lemma stripPrefix_complete (p rest : string) :
  stripPrefix p (p +:+ rest) = Some rest.
Proof.
  induction p as [|a p IH]; [done|].
  rewrite append_cons. cbn. by rewrite decide_True.
Qed.

Lemma stripPrefix_shorter (p a b : string) :
  stripPrefix p (a +:+ b) = None → stripPrefix p a = None.
Proof.
  intros Hnone. destruct (stripPrefix p a) as [rest|] eqn:Ha; [|done].
  apply stripPrefix_sound in Ha as ->.
  by rewrite append_assoc, stripPrefix_complete in Hnone.
Qed.

Lemma lazyBody_sound (s body after : string) :
  lazyBody s = Some (body, after) →
  s = body +:+ backticks +:+ after ∧ includes backticks body = false.
Proof.
  revert body. induction s as [|c s IH]; intros body Hs.
  { cbn in Hs. done. }
  cbn [lazyBody] in Hs.
  destruct (stripPrefix backticks (String c s)) as [rest|] eqn:Hfence.
  - injection Hs as <- <-. split; [|done].
    rewrite append_nil_l. by apply stripPrefix_sound.
  - destruct (lazyBody s) as [[body' after']|] eqn:Hrest; [|done].
    injection Hs as <- <-. destruct (IH body' eq_refl) as [-> Hnot].
    split; [done|]. cbn [includes].
    change (String c (body' +:+ backticks +:+ after'))
      with (String c body' +:+ backticks +:+ after') in Hfence.
    by rewrite (stripPrefix_shorter _ _ _ Hfence).
Qed.

Lemma greedySpaces_sound (s body after : string) :
  greedySpaces s = Some (body, after) →
  ∃ spaces, s = spaces +:+ String newline (body +:+ backticks +:+ after)
            ∧ allChars isWhiteSpace spaces = true
            ∧ includes backticks body = false.
Proof.
  assert (Hbase : ∀ s, newlineThenBody s = Some (body, after) →
            ∃ spaces, s = spaces +:+ String newline (body +:+ backticks +:+ after)
                      ∧ allChars isWhiteSpace spaces = true
                      ∧ includes backticks body = false).
  { intros [|c s'] Hs; [done|]. cbn in Hs.
    destruct (decide (c = newline)) as [->|]; [|done].
    apply lazyBody_sound in Hs as [-> Hnot]. by exists "". }
  induction s as [|c s IH]; intros Hs; [by apply Hbase|].
  cbn [greedySpaces] in Hs.
  destruct (isWhiteSpace c) eqn:Hc; [|by apply Hbase].
  destruct (greedySpaces s) as [r|] eqn:Hgreedy; [|by apply Hbase].
  injection Hs as ->. destruct (IH eq_refl) as (spaces & -> & Hall & Hnot).
  exists (String c spaces). rewrite append_cons. cbn. by rewrite Hc.
Qed.

(** X3. Where the pattern matches, the text is an opening fence tagged
    [mermaid], white space, a line feed, the captured body and a closing
    fence, and the body holds no fence: the capture stops at the first
    closing fence. *)
Theorem mermaidRegex_match_shape (s body after : string) :
  mermaidRegex_exec s = Some (body, after) →
  ∃ spaces,
    s = "```mermaid" +:+ spaces +:+ String newline (body +:+ "```" +:+ after)
    ∧ allChars isWhiteSpace spaces = true
    ∧ includes "```" body = false.
Proof.
  unfold mermaidRegex_exec. intros Hs.
  destruct (stripPrefix (backticks +:+ "mermaid") s) as [s'|] eqn:Hopen; [|done].
  apply stripPrefix_sound in Hopen as ->.
  apply greedySpaces_sound in Hs as (spaces & -> & Hall & Hnot).
  by exists spaces.
Qed.

Lemma mermaidRegex_match_shape_witness :
  ∃ spaces,
    ("```mermaid  " +:+ lf +:+ "graph TD" +:+ lf +:+ "``` and more")
    = "```mermaid" +:+ spaces
      +:+ String newline (("graph TD" +:+ lf) +:+ "```" +:+ " and more")
    ∧ allChars isWhiteSpace spaces = true
    ∧ includes "```" ("graph TD" +:+ lf) = false.
Proof.
  apply (mermaidRegex_match_shape
           ("```mermaid  " +:+ lf +:+ "graph TD" +:+ lf +:+ "``` and more")
           ("graph TD" +:+ lf) " and more").
  vm_compute. reflexivity.
Defined.

(** ** Text without diagram blocks *)



(** ** The blocks of a pass *)

Lemma rev_app_append (s1 s2 : string) :
  String.rev_app s1 s2 = String.rev_app s1 "" +:+ s2.
Proof.
  revert s2. induction s1 as [|a s1 IH]; intros s2; [done|].
  cbn. rewrite (IH (String a s2)), (IH (String a "")).
  by rewrite append_assoc.
Qed.

Lemma rev_append (a b : string) :
  String.rev (a +:+ b) = String.rev b +:+ String.rev a.
Proof.
  unfold String.rev. induction a as [|x a IH].
  { by rewrite append_nil_l, append_nil_r. }
  rewrite append_cons. cbn.
  rewrite (rev_app_append (a +:+ b)), IH, (rev_app_append a (String x "")).
  by rewrite append_assoc.
Qed.

Lemma rev_involutive (s : string) : String.rev (String.rev s) = s.
Proof.
  induction s as [|x s IH]; [done|].
  change (String x s) with (String x "" +:+ s) at 1.
  rewrite rev_append, rev_append, IH. done.
Qed.

Lemma trimStart_suffix (s : string) :
  ∃ spaces, s = spaces +:+ trimStart s.
Proof.
  induction s as [|c s [spaces IH]]; [by exists ""|].
  cbn. destruct (isWhiteSpace c).
  - exists (String c spaces). by rewrite append_cons, <- IH.
  - by exists "".
Qed.

Lemma trimEnd_prefix (s : string) : ∃ spaces, s = trimEnd s +:+ spaces.
Proof.
  unfold trimEnd. destruct (trimStart_suffix (String.rev s)) as [spaces Hs].
  exists (String.rev spaces).
  rewrite <- (rev_involutive s) at 1. rewrite Hs at 1. apply rev_append.
Qed.

Lemma trimStart_head (s : string) :
  match trimStart s with
  | String c _ => isWhiteSpace c = false
  | EmptyString => True
  end.
Proof.
  induction s as [|c s IH]; [done|].
  cbn. by destruct (isWhiteSpace c) eqn:Hc.
Qed.

(** A trimmed text is empty or starts with a character that is not white
    space. *)
Lemma trim_head (s : string) :
  match trim s with
  | String c _ => isWhiteSpace c = false
  | EmptyString => True
  end.
Proof.
  unfold trim. pose proof (trimStart_head s) as Hhead.
  destruct (trimEnd_prefix (trimStart s)) as [spaces Hpre].
  destruct (trimEnd (trimStart s)) as [|c r]; [done|].
  rewrite Hpre in Hhead. by rewrite append_cons in Hhead.
Qed.

Lemma split_first_prefix (s : string) :
  ∃ rest, s = split_first s +:+ rest
          ∧ allChars (λ c, negb (isWhiteSpace c)) (split_first s) = true
          ∧ match rest with
            | String c _ => isWhiteSpace c = true
            | EmptyString => True
            end.
Proof.
  induction s as [|c s (rest & IH & Hall & Hrest)]; [by exists ""|].
  cbn. destruct (isWhiteSpace c) eqn:Hc.
  - by exists (String c s).
  - exists rest. rewrite append_cons, <- IH. cbn. by rewrite Hc.
Qed.

Lemma replaceMermaid_blocks (text : string) :
  ∀ (skip : nat) (n : N),
    Forall (λ b, ∃ body m, b = (replaceCallback body m).1)
           (replaceMermaid text skip n).1.2.
Proof.
  induction text as [|c rest IH]; intros skip n; [by constructor|].
  cbn [replaceMermaid]. destruct skip as [|k]; [|apply IH].
  destruct (mermaidRegex_exec (String c rest)) as [[body after]|].
  - cbn [replaceCallback].
    specialize (IH (String.length (String c rest) - String.length after - 1)
                   (n + 1)%N).
    destruct (replaceMermaid rest _ (n + 1)) as [[out blocks] n'].
    constructor; [by exists body, n | exact IH].
  - specialize (IH 0 n).
    by destruct (replaceMermaid rest 0 n) as [[out blocks] n'].
Qed.

(** X4. The declared kind of an extracted block is the first word of its
    body: the body is empty and the kind is [unknown], or the body starts
    with the kind, which is not empty, holds no white space, and is followed
    by white space or by the end of the body. *)
Theorem extracted_block_kind (text : string) (skip : nat) (n : N) (b : MermaidBlock) :
  b ∈ (replaceMermaid text skip n).1.2 →
  (code b = "" ∧ diagramType b = "unknown")
  ∨ ∃ rest,
      code b = diagramType b +:+ rest
      ∧ diagramType b ≠ ""
      ∧ allChars (λ c, negb (isWhiteSpace c)) (diagramType b) = true
      ∧ match rest with
        | String c _ => isWhiteSpace c = true
        | EmptyString => True
        end.
Proof.
  intros Hb.
  pose proof (replaceMermaid_blocks text skip n) as Hall.
  rewrite Forall_forall in Hall. destruct (Hall b Hb) as (body & m & ->).
  cbn [replaceCallback fst code diagramType].
  pose proof (trim_head body) as Hhead.
  destruct (split_first_prefix (trim body)) as (rest & Hsplit & Hkind & Hrest).
  destruct (trim body) as [|c r] eqn:Htrim.
  - left. by cbn.
  - right. cbn [split_first] in *. rewrite Hhead in *.
    rewrite decide_False by done. by exists rest.
Qed.

Lemma extracted_block_kind_witness :
  ∃ rest,
    code sampleBlock0 = diagramType sampleBlock0 +:+ rest
    ∧ diagramType sampleBlock0 ≠ ""
    ∧ allChars (λ c, negb (isWhiteSpace c)) (diagramType sampleBlock0) = true
    ∧ match rest with
      | String c _ => isWhiteSpace c = true
      | EmptyString => True
      end.
Proof.
  assert (Hin : sampleBlock0 ∈ (replaceMermaid sampleDocument 0 0).1.2)
    by (vm_compute; left).
  destruct (extracted_block_kind sampleDocument 0 0 sampleBlock0 Hin)
    as [[Hcode _]|Hkind]; [discriminate Hcode | exact Hkind].
Defined.

Lemma replaceMermaid_placeholders (text : string) :
  ∀ (skip : nat) (n : N),
    let '(out, blocks, _) := replaceMermaid text skip n in
    Forall (λ b, embeds out (placeholderDiv (id b))) blocks.
Proof.
  induction text as [|c rest IH]; intros skip n; [by constructor|].
  cbn [replaceMermaid]. destruct skip as [|k]; [|apply IH].
  destruct (mermaidRegex_exec (String c rest)) as [[body after]|].
  - cbn [replaceCallback].
    specialize (IH (String.length (String c rest) - String.length after - 1)
                   (n + 1)%N).
    destruct (replaceMermaid rest _ (n + 1)) as [[out blocks] n'].
    constructor; [apply embeds_head|].
    eapply Forall_impl; [exact IH|]. intros b Hb. by apply embeds_app_r.
  - specialize (IH 0 n).
    destruct (replaceMermaid rest 0 n) as [[out blocks] n'].
    eapply Forall_impl; [exact IH|]. intros b Hb.
    change (String c out) with (String c "" +:+ out). by apply embeds_app_r.
Qed.

(** X5. The text handed to the markdown renderer holds the placeholder of
    every extracted block, with the identifier of that block. *)
Theorem extracted_block_placeholder (text : string) (n : N) (b : MermaidBlock) :
  b ∈ (replaceMermaid text 0 n).1.2 →
  embeds (replaceMermaid text 0 n).1.1 (placeholderDiv (id b)).
Proof.
  intros Hb. pose proof (replaceMermaid_placeholders text 0 n) as Hall.
  destruct (replaceMermaid text 0 n) as [[out blocks] n'].
  rewrite Forall_forall in Hall. by apply Hall.
Qed.

Lemma extracted_block_placeholder_witness :
  embeds (replaceMermaid sampleDocument 0 0).1.1 (placeholderDiv "mermaid-0").
Proof.
  apply (extracted_block_placeholder sampleDocument 0 sampleBlock0).
  vm_compute. left.
Defined.

(** ** Recent files, in general *)

Lemma remove_dups_snoc (p : string) (ps : list string) :
  remove_dups (ps ++ [p]) = filter (λ f, f ≠ p) (remove_dups ps) ++ [p].
Proof.
  induction ps as [|x ps IH]; [done|].
  cbn [app remove_dups].
  destruct (decide_rel elem_of x (ps ++ [p])) as [Hin1|Hnin1];
    destruct (decide_rel elem_of x ps) as [Hin|Hnin]; rewrite IH.
  - done.
  - apply elem_of_app in Hin1 as [Hin|Hxp%list_elem_of_singleton]; [done|].
    subst x. by rewrite filter_cons_False by (intros Hn; by apply Hn).
  - exfalso. set_solver.
  - by rewrite filter_cons_True by set_solver.
Qed.

Lemma take_filter_one_more (p : string) (n : nat) (l : list string) :
  NoDup l →
  take n (filter (λ f, f ≠ p) (take (S n) l)) = take n (filter (λ f, f ≠ p) l).
Proof.
  revert n. induction l as [|x l IH]; intros n Hnd; [done|].
  apply NoDup_cons in Hnd as [Hx Hnd]. cbn [take].
  destruct (decide (x = p)) as [->|Hne].
  - rewrite !filter_cons_False by (intros Hn; by apply Hn).
    rewrite (filter_absent p l Hx), filter_absent by by apply not_elem_of_take.
    by rewrite take_take, Nat.min_id.
  - rewrite !filter_cons_True by done.
    destruct n as [|n]; [done|]. cbn [take]. by rewrite IH.
Qed.

(** X17. Starting from an empty list, after any sequence of calls of
    [_addToRecentFiles], repeated paths included, the list is the distinct
    paths touched, the most recently touched first, cut at
    [MAX_RECENT_FILES]. *)
Theorem recentFiles_most_recent_first (ps : list string) (ws : gmap string WsValue) :
  recentFiles ws = [] →
  recentFiles (foldl (λ ws p, _addToRecentFiles p ws) ws ps)
  = take MAX_RECENT_FILES (reverse (remove_dups ps)).
Proof.
  intros Hempty. induction ps as [|p ps IH] using rev_ind.
  { cbn [foldl]. by rewrite Hempty. }
  rewrite foldl_app. cbn [foldl]. rewrite recentFiles_add, IH.
  rewrite remove_dups_snoc, reverse_app, reverse_singleton.
  change ([p] ++ ?l) with (p :: l).
  change (take MAX_RECENT_FILES (p :: ?l))
    with (p :: take (MAX_RECENT_FILES - 1) l).
  f_equal. rewrite <- filter_reverse.
  apply take_filter_one_more. rewrite reverse_Permutation.
  apply NoDup_remove_dups.
Qed.

Lemma recentFiles_most_recent_first_witness :
  recentFiles (foldl (λ ws p, _addToRecentFiles p ws) ∅ ["a"; "b"; "a"; "c"; "b"])
  = take MAX_RECENT_FILES (reverse (remove_dups ["a"; "b"; "a"; "c"; "b"])).
Proof.
  apply (recentFiles_most_recent_first ["a"; "b"; "a"; "c"; "b"] ∅).
  reflexivity.
Defined.

(** X18. A stored list without duplicates stays without duplicates after
    a call of [_addToRecentFiles], and then holds at most
    [MAX_RECENT_FILES] paths, however long it was. *)
Theorem recentFiles_bounded_distinct (p : string) (ws : gmap string WsValue) :
  NoDup (recentFiles ws) →
  NoDup (recentFiles (_addToRecentFiles p ws))
  ∧ (length (recentFiles (_addToRecentFiles p ws)) ≤ MAX_RECENT_FILES)%nat.
Proof.
  intros Hnd. rewrite recentFiles_add. split.
  - eapply sublist_NoDup; [|apply sublist_take].
    apply NoDup_cons. split; [apply filter_removes|]. by apply NoDup_filter.
  - rewrite length_take. lia.
Qed.

Lemma recentFiles_bounded_distinct_witness :
  NoDup (recentFiles (_addToRecentFiles "b" (_addToRecentFiles "a" ∅)))
  ∧ (length (recentFiles (_addToRecentFiles "b" (_addToRecentFiles "a" ∅)))
     ≤ MAX_RECENT_FILES)%nat.
Proof.
  apply (recentFiles_bounded_distinct "b" (_addToRecentFiles "a" ∅)).
  apply (bool_decide_unpack _). vm_compute. exact I.
Defined.

(** ** The preview of a text, and leaving it *)

Section WebviewMoreFacts.
Context `{Browser}.





End WebviewMoreFacts.



(** ** The provider on sample worlds, continued *)

Lemma loaded_forever_witness :
  is_Some
    (_currentFileUri
       (hostRun [ChangeVisibility false;
                 ExecuteCommand "markdownSidebar.recentFiles" []
                   (mkAnswers None None);
                 ExecuteCommand "markdownSidebar.openFromExplorer"
                   [JsUri "/notes/b.md"] (mkAnswers None None);
                 Elapse 5]
          loadedWorld)).
Proof.
  apply (loaded_forever _ loadedWorld). eexists. reflexivity.
Defined.

Lemma reachable_one_timer_witness :
  (length (timers editedWorld) ≤ 1)%nat
  ∧ ∀ t, t ∈ timers editedWorld → _autoSaveTimeout editedWorld = Some t.1.
Proof.
  apply (reachable_one_timer editedWorld).
  apply reachable_step, reachable_step, reachable_step, reachable_new.
Defined.


Lemma restore_posts_buffer_witness :
  hostStep editedWorld (ReceiveMessage ready)
  = upd_posted (λ l, l ++ [loadContent (_currentContent editedWorld)
                             (_getFilename "/notes/a.md")]) editedWorld.
Proof.
  assert (Hview : _view editedWorld = Some webviewView) by reflexivity.
  assert (Huri : _currentFileUri editedWorld = Some "/notes/a.md")
    by reflexivity.
  assert (Hcontent : _currentContent editedWorld ≠ "") by discriminate.
  exact (proj1 (restore_posts_buffer editedWorld "/notes/a.md"
                  Hview Huri Hcontent)).
Defined.

Lemma lastFile_missing_recovery_witness :
  get_string (workspaceState (hostStep staleWorld (ReceiveMessage ready)))
    LAST_FILE_KEY = None.
Proof.
  assert (Hview : _view staleWorld = Some webviewView) by reflexivity.
  assert (Hempty : _currentFileUri staleWorld = None) by reflexivity.
  assert (Hlast : get_string (workspaceState staleWorld) LAST_FILE_KEY
                  = Some "/notes/gone.md") by reflexivity.
  assert (Hp : "/notes/gone.md" ≠ "") by discriminate.
  assert (Hread : fs_readFile "/notes/gone.md" (disk staleWorld)
                  = Throw (mkError "Error" "ENOENT")) by reflexivity.
  destruct (lastFile_missing_recovery staleWorld "/notes/gone.md"
              (mkError "Error" "ENOENT") Hview Hempty Hlast Hp Hread)
    as (_ & Hgone & _).
  exact Hgone.
Defined.

Lemma open_then_restore_witness :
  let opened := hostStep emptyWorld
                  (ExecuteCommand "markdownSidebar.open" []
                     (picks "/notes/a.md")) in
  let restarted :=
    hostRun [ResolveWebviewView; ReceiveMessage ready]
      (newWorld (workspaceState opened) sampleDisk) in
  _currentFileUri restarted = Some "/notes/a.md"
  ∧ _currentContent restarted = "alpha"
  ∧ posted restarted = [loadContent "alpha" (_getFilename "/notes/a.md")].
Proof.
  assert (Hpick : openDialogAnswer (picks "/notes/a.md")
                  = Some ["/notes/a.md"]) by reflexivity.
  assert (Hp : "/notes/a.md" ≠ "") by discriminate.
  assert (Hread : fs_readFile "/notes/a.md" (disk emptyWorld) = Normal "alpha")
    by reflexivity.
  assert (Hread' : fs_readFile "/notes/a.md" sampleDisk = Normal "alpha")
    by reflexivity.
  exact (proj2 (open_then_restore emptyWorld (picks "/notes/a.md")
                  "/notes/a.md" [] "alpha" sampleDisk "alpha"
                  Hpick Hp Hread Hread')).
Defined.

Lemma showRecentFiles_without_pick_witness :
  exec (showRecentFiles (mkAnswers None None)) loadedWorld = loadedWorld
  ∧ notifications (exec (showRecentFiles (mkAnswers None (Some 0))) emptyWorld)
    = [showInformationMessage "No recent files"].
Proof.
  assert (Hcancel : quickPickAnswer (mkAnswers None None)
                    ≫= (recentFiles (workspaceState loadedWorld) !!.) = None)
    by reflexivity.
  assert (Hnone : quickPickAnswer (mkAnswers None (Some 0))
                  ≫= (recentFiles (workspaceState emptyWorld) !!.) = None)
    by reflexivity.
  unfold exec.
  rewrite (showRecentFiles_without_pick loadedWorld _ Hcancel).
  rewrite (showRecentFiles_without_pick emptyWorld _ Hnone).
  split; reflexivity.
Defined.

Lemma recent_pick_opens_witness :
  let w' := hostStep editedWorld
              (ExecuteCommand "markdownSidebar.recentFiles" []
                 (mkAnswers None (Some 0))) in
  _currentFileUri w' = Some "/notes/a.md" ∧ _currentContent w' = "alpha".
Proof.
  assert (Hpick : quickPickAnswer (mkAnswers None (Some 0)) = Some 0)
    by reflexivity.
  assert (Hentry : recentFiles (workspaceState editedWorld) !! 0
                   = Some "/notes/a.md") by reflexivity.
  assert (Hread : fs_readFile "/notes/a.md" (disk editedWorld) = Normal "alpha")
    by reflexivity.
  destruct (recent_pick_opens editedWorld _ 0 "/notes/a.md" "alpha"
              Hpick Hentry Hread) as (Huri & Hcontent & _).
  exact (conj Huri Hcontent).
Defined.

Lemma manual_save_keeps_timer_witness :
  writes (hostRun [ReceiveMessage (contentChanged "alpha1"); SaveFile;
                   Elapse 1000] loadedWorld)
  = [("/notes/a.md", "alpha1"); ("/notes/a.md", "alpha1")].
Proof.
  assert (Hreach : reachable loadedWorld)
    by apply reachable_step, reachable_step, reachable_new.
  assert (Hview : _view loadedWorld = Some webviewView) by reflexivity.
  assert (Huri : _currentFileUri loadedWorld = Some "/notes/a.md")
    by reflexivity.
  assert (Hwait : (1000 ≤ 1000)%nat) by lia.
  exact (proj1 (manual_save_keeps_timer loadedWorld "/notes/a.md" "alpha1"
                  1000 Hreach Hview Huri Hwait)).
Defined.


Lemma no_post_without_view_witness :
  let w := hostRun [ExecuteCommand "markdownSidebar.open" [] (picks "/notes/a.md");
                    ExecuteCommand "markdownSidebar.togglePreview" []
                      (mkAnswers None None);
                    SaveFile]
             freshWorld in
  _view w = None ∧ posted w = [].
Proof.
  apply (no_post_without_view _ freshWorld); [reflexivity|].
  repeat constructor; discriminate.
Defined.
